(** * Stale-branch cleaner: a shallow embedding of [src/index.js]

    The script asks the operator for a mode, pages through the closed pull
    requests of one repository, keeps the merged ones whose head branch still
    exists and which are old enough, writes the list to [./merged-prs.json]
    and, in NUKE mode and after a last confirmation, deletes every head
    branch of the list.

    The embedding keeps the code's shape: the environment (process.env, the
    lines typed at the prompts, the clock and the three GitHub calls) is a
    record of oracles, a run is a function from that record to the ordered
    list of observable events and an outcome, and the unbounded [for (;;)]
    loop takes a fuel argument. *)

From Stdlib Require Import ZArith QArith Qround Qpower Qabs.
From Stdlib Require Import List Bool Ascii String Lia Lqa.
From Stdlib Require DecimalString DecimalPos.
Import ListNotations.

Local Open Scope Z_scope.

(** ** JavaScript numbers

    The script's only non-integer arithmetic is the age of a pull request,
    [(Date.now() - Date.parse(pr.merged_at)) / 1000 / MONTH_IN_SECONDS], on
    IEEE-754 binary64 values.  A number is [NaN] or a rational; every
    arithmetic result is rounded to the nearest value with a 53-bit
    significand, ties to the even significand.  The exponent is unbounded:
    the quotients computed here are 0 or lie between 2^-32 and 2^54 in
    magnitude, far from the subnormal and overflow ranges of binary64. *)

Module JSNumber.

Inductive Number : Type :=
| NaN
| Num (q : Q).

(** [rne y]: the integer nearest to [y], the even one at a tie. *)
Definition rne (y : Q) : Z :=
  let q := Qfloor y in
  match (y - inject_Z q ?= 1 # 2)%Q with
  | Lt => q
  | Gt => q + 1
  | Eq => if Z.even q then q else q + 1
  end.

(** The exponent [e] of the unit in the last place of [x > 0]:
    [2^52 <= x / 2^e < 2^53]. *)
Definition ulp_exp (x : Q) : Z :=
  let e0 := Z.log2 (Qnum x) - Z.log2 (Zpos (Qden x)) - 53 in
  if Qfloor (x / 2 ^ e0) <? 2 ^ 53 then e0 else e0 + 1.

Definition round_pos (x : Q) : Q :=
  let e := ulp_exp x in
  Qred (inject_Z (rne (x / 2 ^ e)) * 2 ^ e).

(** Round to nearest, ties to even, 53 bits of precision. *)
Definition round (x : Q) : Q :=
  match Qnum x with
  | 0 => 0%Q
  | Zpos _ => round_pos x
  | Zneg _ => Qred (- round_pos (- x))
  end.

Definition of_Z (z : Z) : Number := Num (round (inject_Z z)).

Definition sub (a b : Number) : Number :=
  match a, b with
  | Num x, Num y => Num (round (x - y))
  | _, _ => NaN
  end.

(** Division by a non-zero finite constant (the script divides by 1000 and
    by MONTH_IN_SECONDS only). *)
Definition div (a b : Number) : Number :=
  match a, b with
  | Num x, Num y => if Qeq_bool y 0 then NaN else Num (round (x / y))
  | _, _ => NaN
  end.

(** [a >= b]; any comparison with NaN is false. *)
Definition geb (a b : Number) : bool :=
  match a, b with
  | Num x, Num y => Qle_bool y x
  | _, _ => false
  end.

(** The values a binary64 significand can carry, at any exponent. *)
Definition representable (f : Q) : Prop :=
  exists m k : Z, Z.abs m <= 2 ^ 53 /\ (f == inject_Z m * 2 ^ k)%Q.

(** ECMAScript time values: at most 8.64e15 milliseconds from the epoch. *)
Definition time_value (t : Z) : Prop := Z.abs t <= 8640000000000000.

End JSNumber.

Import JSNumber.

(** ** Strings

    A JavaScript string is modelled by [string], a sequence of code units
    below 256.  A string is truthy when it is not empty. *)

Definition truthy (s : string) : bool := negb (s =? "")%string.

(** [Array.prototype.includes] on an array of strings. *)
Definition includes (l : list string) (s : string) : bool :=
  existsb (String.eqb s) l.

(** ** Configuration (lines 7-35) *)

Module Config.

(** White space skipped by [parseInt]: TAB, LF, VT, FF, CR, SP, NBSP. *)
Definition is_white_space (c : ascii) : bool :=
  let n := Z.of_nat (nat_of_ascii c) in
  ((9 <=? n) && (n <=? 13)) || (n =? 32) || (n =? 160).

Fixpoint skip_white_space (s : string) : string :=
  match s with
  | String c r => if is_white_space c then skip_white_space r else s
  | EmptyString => s
  end.

Definition digit (c : ascii) : option Z :=
  let n := Z.of_nat (nat_of_ascii c) in
  if (48 <=? n) && (n <=? 57) then Some (n - 48) else None.

(** The longest prefix of decimal digits, read as an integer; [acc] is the
    value read so far, [None] before the first digit. *)
Fixpoint digits (s : string) (acc : option Z) : option Z :=
  match s with
  | String c r =>
      match digit c with
      | Some d =>
          digits r (Some (10 * match acc with Some a => a | None => 0 end + d))
      | None => acc
      end
  | EmptyString => acc
  end.

(** [parseInt(s, 10)]; [None] is NaN.  The integer is kept exact (a
    JavaScript engine rounds it to a binary64 value; the script compares it
    through [JSNumber.of_Z]). *)
Definition parseInt (s : string) : option Z :=
  match skip_white_space s with
  | String "-"%char r => option_map Z.opp (digits r None)
  | String "+"%char r => digits r None
  | t => digits t None
  end.

(** [n || d] on the result of [parseInt]: NaN and 0 are falsy. *)
Definition or_default (n : option Z) (d : Z) : Z :=
  match n with
  | Some 0 | None => d
  | Some v => v
  end.

(** [parseInt(process.env[name], 10) || d]; an unset variable is
    [undefined], which [parseInt] reads as the string "undefined". *)
Definition env_int (env : string -> option string) (name : string) (d : Z) : Z :=
  let s := match env name with Some v => v | None => "undefined"%string end in
  or_default (parseInt s) d.

Definition requiredEnvVars : list string :=
  ["OWNER"; "REPO"; "GITHUB_TOKEN"]%string.

Definition allRequiredVarsPresent (env : string -> option string) : bool :=
  forallb (fun v => match env v with Some s => truthy s | None => false end)
    requiredEnvVars.

Definition FORBIDDEN_HEAD_REFS : list string := ["master"; "staging"]%string.
Definition ALLOWED_BASE_REFS : list string := ["master"]%string.
Definition MONTH_IN_SECONDS : Z := 2592000.

Definition AGE_IN_MONTHS (env : string -> option string) : Z :=
  env_int env "AGE_IN_MONTHS" 3.
Definition MAX_COUNT (env : string -> option string) : Z :=
  env_int env "MAX_COUNT" 100.
Definition PER_PAGE_COUNT (env : string -> option string) : Z :=
  env_int env "PER_PAGE_COUNT" 30.

End Config.

Import Config.

(** ** Data exchanged with GitHub *)

Record PullRequest : Type := {
  pr_state : string;
  pr_number : Z;
  pr_title : string;
  pr_html_url : string;
  pr_head_ref : string;
  pr_base_ref : string;
  pr_merged_at : option string   (* [None] is null *)
}.

(** The [data] of a [repos.getBranch] response, as far as the script reads
    it: its [message] property, absent on a branch object. *)
Record BranchInfo : Type := {
  bi_message : option string
}.

Inductive BranchResponse : Type :=
| BranchThrows                             (* the promise rejects (404, network) *)
| BranchData (data : option BranchInfo).   (* resolves; [None] is a falsy [data] *)

Inductive ListResponse : Type :=
| ListThrows
| ListData (data : option (list PullRequest)).

(** The records accumulated in [mergedPRs] (lines 135-144). *)
Record Candidate : Type := {
  state : string;
  number : Z;
  title : string;
  age : Number;
  html_url : string;
  branch_name : string;
  base_branch_name : string;
  merged_at : option string
}.

(** ** The environment of a run

    The clock and the branch lookup are read once per pull request of a
    page, so their oracles are keyed by the page number and the pull
    request; [deleteRef] is keyed by the position in the deletion loop, so
    that two deletions of one ref may answer differently. *)
Record World : Type := {
  env : string -> option string;
  stdin : list string;                            (* the lines typed at the prompts *)
  Date_now : Z -> PullRequest -> Z;               (* milliseconds *)
  Date_parse : string -> option Z;                (* milliseconds; [None] is NaN *)
  pulls_list : Z -> ListResponse;
  getBranch : Z -> PullRequest -> BranchResponse;
  deleteRef : nat -> string -> bool               (* [true]: resolves; [false]: rejects *)
}.

(** ** Observable events *)

Inductive LogLine : Type :=
| MissingEnv
| UnsupportedMode
| ModeSelected (mode : string)
| BranchesSafe
| NoTurningBack
| PageProgress (page : Z)
| NoMorePRs
| BranchNotFound
| MaxReached (max : Z)
| Processed (n : nat)
| GotMerged (n : nat)
| Exiting
| JustLogging
| Attempting (branch : string)
| Removed
| DeleteFailed (url branch : string)
| AgeReport (number : Z) (age : Number).

Inductive Prompt : Type :=
| AskMode
| AskRun (mode : string)
| AskNuke.

Inductive Event : Type :=
| Log (line : LogLine)
| Question (p : Prompt)
| Close
| CallList (page per_page : Z)
| CallGetBranch (branch : string)
| WriteFile (path : string) (content : list Candidate)
| CallDeleteRef (ref : string).

Inductive Outcome : Type :=
| Exited (code : Z)      (* process.exit *)
| Completed              (* the event loop drains: exit code 0 *)
| Rejected               (* pulls.list threw inside the async callback *)
| AwaitingInput          (* no line arrives at a prompt *)
| OutOfFuel.             (* the page loop is still running *)

Definition exit_code (o : Outcome) : option Z :=
  match o with
  | Exited c => Some c
  | Completed => Some 0
  | _ => None
  end.

(** ** The filter pipeline (lines 97-146) *)

Section Pipeline.

Variable w : World.
Variable page : Z.

(** Line 100: merged, head not forbidden, base allowed. *)
Definition locally_eligible (pr : PullRequest) : bool :=
  match pr_merged_at pr with Some s => truthy s | None => false end
  && negb (includes FORBIDDEN_HEAD_REFS (pr_head_ref pr))
  && includes ALLOWED_BASE_REFS (pr_base_ref pr).

Definition not_found_info : BranchInfo :=
  {| bi_message := Some "Branch not found"%string |}.

(** Lines 101-118: the pull request with its [branchInfo]; a rejected lookup
    is caught and replaced by the not-found marker. *)
Definition with_branch_info (pr : PullRequest) : PullRequest * option BranchInfo :=
  match getBranch w page pr with
  | BranchData data => (pr, data)
  | BranchThrows => (pr, Some not_found_info)
  end.

(** Lines 121-127: the predicate of the second filter. *)
Definition branch_found (x : PullRequest * option BranchInfo) : bool :=
  match snd x with
  | None => false
  | Some bi =>
      match bi_message bi with
      | Some m => negb (m =? "Branch not found")%string
      | None => true
      end
  end.

Definition parse_merged_at (m : option string) : Number :=
  match m with
  | Some s =>
      match Date_parse w s with
      | Some t => JSNumber.of_Z t
      | None => NaN
      end
  | None => NaN
  end.

(** Lines 131-133: [(Date.now() - Date.parse(pr.merged_at)) / 1000 /
    MONTH_IN_SECONDS]. *)
Definition monthsAge (pr : PullRequest) : Number :=
  let age := JSNumber.div
               (JSNumber.sub (JSNumber.of_Z (Date_now w page pr))
                             (parse_merged_at (pr_merged_at pr)))
               (JSNumber.of_Z 1000) in
  JSNumber.div age (JSNumber.of_Z MONTH_IN_SECONDS).

(** Lines 128-145. *)
Definition to_candidate (x : PullRequest * option BranchInfo) : Candidate :=
  let pr := fst x in
  {| state := pr_state pr;
     number := pr_number pr;
     title := pr_title pr;
     age := monthsAge pr;
     html_url := pr_html_url pr;
     branch_name := pr_head_ref pr;
     base_branch_name := pr_base_ref pr;
     merged_at := pr_merged_at pr |}.

(** Line 146. *)
Definition old_enough (c : Candidate) : bool :=
  JSNumber.geb (age c) (JSNumber.of_Z (AGE_IN_MONTHS (env w))).

(** The candidates of one page. *)
Definition page_candidates (data : list PullRequest) : list Candidate :=
  let looked := map with_branch_info (filter locally_eligible data) in
  filter old_enough (map to_candidate (filter branch_found looked)).

(** What one page shows: the lookups, issued in order for the locally
    eligible pull requests, then one line per record dropped by the second
    filter. *)
Definition page_events (data : list PullRequest) : list Event :=
  let eligible := filter locally_eligible data in
  let looked := map with_branch_info eligible in
  map (fun pr => CallGetBranch (pr_head_ref pr)) eligible
  ++ map (fun _ => Log BranchNotFound)
         (filter (fun x => negb (branch_found x)) looked).

End Pipeline.

(** ** The page loop (lines 84-157) *)

Inductive Discovery : Type :=
| Found (mergedPRs : list Candidate)   (* the loop was left by [break] *)
| FetchFailed                          (* pulls.list threw *)
| StillPaging.                         (* fuel exhausted *)

Definition no_data (data : option (list PullRequest)) : bool :=
  match data with
  | None | Some [] => true
  | Some (_ :: _) => false
  end.

Definition data_list (data : option (list PullRequest)) : list PullRequest :=
  match data with Some l => l | None => [] end.

Fixpoint discover (w : World) (fuel : nat) (page : Z) (mergedPRs : list Candidate)
  : list Event * Discovery :=
  match fuel with
  | O => ([], StillPaging)
  | S fuel' =>
      let start := [Log (PageProgress page);
                    CallList page (PER_PAGE_COUNT (env w))] in
      match pulls_list w page with
      | ListThrows => (start, FetchFailed)
      | ListData data =>
          if no_data data then (start ++ [Log NoMorePRs], Found mergedPRs)
          else
            let pullRequests := page_candidates w page (data_list data) in
            let evs := start ++ page_events w page (data_list data) in
            let mergedPRs' := mergedPRs ++ pullRequests in
            if MAX_COUNT (env w) <=? Z.of_nat (List.length mergedPRs') then
              (evs ++ [Log (MaxReached (MAX_COUNT (env w)))], Found mergedPRs')
            else
              let (rest, d) := discover w fuel' (page + 1) mergedPRs' in
              (evs ++ Log (Processed (List.length pullRequests)) :: rest, d)
      end
  end.

(** ** The deletion loop (lines 173-184) *)

Fixpoint delete_loop (w : World) (i : nat) (mergedPRs : list Candidate)
  : list Event :=
  match mergedPRs with
  | [] => []
  | mergedPR :: rest =>
      [Log (Attempting (branch_name mergedPR));
       CallDeleteRef (branch_name mergedPR);
       if deleteRef w i (branch_name mergedPR) then Log Removed
       else Log (DeleteFailed (html_url mergedPR) (branch_name mergedPR))]
      ++ delete_loop w (S i) rest
  end.

(** Lines 188-192. *)
Definition dry_run_report (mergedPRs : list Candidate) : list Event :=
  Log JustLogging
  :: flat_map (fun mergedPR =>
                 [Log (Attempting (branch_name mergedPR));
                  Log (AgeReport (number mergedPR) (age mergedPR))])
              mergedPRs.

(** ** The whole script (lines 7-196) *)

Definition result_path : string := "./merged-prs.json".

(** Lines 159-194, once the loop is left with [mergedPRs]. *)
Definition after_discovery (w : World) (mode : string) (input : list string)
  (mergedPRs : list Candidate) : list Event * Outcome :=
  let stored := [WriteFile result_path mergedPRs;
                 Log (GotMerged (List.length mergedPRs))] in
  if (mode =? "NUKE")%string then
    match input with
    | [] => (stored ++ [Question AskNuke], AwaitingInput)
    | confirm :: _ =>
        if negb (confirm =? "NUKE")%string then
          (stored ++ [Question AskNuke; Close; Log Exiting], Exited 0)
        else
          (stored ++ Question AskNuke :: delete_loop w 0 mergedPRs ++ [Close],
           Completed)
    end
  else
    (stored ++ dry_run_report mergedPRs ++ [Close], Completed).

(** Lines 61-195: the callback of the second prompt. *)
Definition on_answer (w : World) (fuel : nat) (mode answer : string)
  (input : list string) : list Event * Outcome :=
  if (mode =? "NUKE")%string && negb (answer =? "YES I DO")%string then
    ([Log BranchesSafe; Close], Exited 1)
  else
    let (evs, d) := discover w fuel 1 [] in
    match d with
    | FetchFailed => (Log NoTurningBack :: evs, Rejected)
    | StillPaging => (Log NoTurningBack :: evs, OutOfFuel)
    | Found mergedPRs =>
        let (evs', o) := after_discovery w mode input mergedPRs in
        (Log NoTurningBack :: evs ++ evs', o)
    end.

(** Lines 42-196: the callback of the first prompt. *)
Definition on_mode (w : World) (fuel : nat) (typed : string)
  (input : list string) : list Event * Outcome :=
  let mode := if truthy typed then typed else "DRYRUN"%string in
  if negb (includes ["DRYRUN"; "NUKE"]%string mode) then
    ([Log UnsupportedMode; Close], Exited 1)
  else
    match input with
    | [] => ([Log (ModeSelected mode); Question (AskRun mode)], AwaitingInput)
    | answer :: input' =>
        let (evs, o) := on_answer w fuel mode answer input' in
        (Log (ModeSelected mode) :: Question (AskRun mode) :: evs, o)
    end.

Definition run (w : World) (fuel : nat) : list Event * Outcome :=
  if negb (allRequiredVarsPresent (env w)) then ([Log MissingEnv], Exited 1)
  else
    match stdin w with
    | [] => ([Question AskMode], AwaitingInput)
    | typed :: input =>
        let (evs, o) := on_mode w fuel typed input in
        (Question AskMode :: evs, o)
    end.

(** The refs handed to [deleteRef] during a run, in order. *)
Definition deleted_refs (evs : list Event) : list string :=
  flat_map (fun e => match e with CallDeleteRef r => [r] | _ => [] end) evs.

(** The pages asked of [pulls.list] during a run, in order. *)
Definition listed_pages (evs : list Event) : list Z :=
  flat_map (fun e => match e with CallList p _ => [p] | _ => [] end) evs.

(** The contents handed to [fs.writeFileSync] during a run, in order. *)
Definition written (evs : list Event) : list (list Candidate) :=
  flat_map (fun e => match e with WriteFile _ c => [c] | _ => [] end) evs.

(** ** Vocabulary of the properties *)

Local Open Scope string_scope.
Local Open Scope Z_scope.
Local Open Scope list_scope.

(** An event list made of lookups and log lines only. *)
Definition quiet (evs : list Event) : Prop :=
  deleted_refs evs = [] /\ written evs = [] /\ listed_pages evs = [].

(** The run passes both gates and enters the page loop with [mode] selected
    and [input] still to be read. *)
Definition starts_discovery (w : World) (mode : string) (input : list string) : Prop :=
  allRequiredVarsPresent (env w) = true /\
  exists typed answer,
    stdin w = typed :: answer :: input /\
    mode = (if truthy typed then typed else "DRYRUN") /\
    includes ["DRYRUN"; "NUKE"] mode = true /\
    (mode = "NUKE" -> answer = "YES I DO").

(** The pull request passes the five stages of the pipeline. *)
Definition survives (w : World) (page : Z) (pr : PullRequest) : bool :=
  locally_eligible pr
  && branch_found (with_branch_info w page pr)
  && old_enough w (to_candidate w page (with_branch_info w page pr)).

(** The lookup is rejected, or resolves with no data or with the not-found
    marker. *)
Definition branch_missing (r : BranchResponse) : Prop :=
  r = BranchThrows \/ r = BranchData None \/
  exists bi, r = BranchData (Some bi) /\ bi_message bi = Some "Branch not found".

Definition not_found_logs (evs : list Event) : nat :=
  List.length
    (filter (fun e => match e with Log BranchNotFound => true | _ => false end) evs).

(** The three quotients of line 131-133 on exact inputs. *)
Definition age_of (now t : Z) : Q :=
  round (round (round (round (inject_Z now) - round (inject_Z t)) / 1000) / 2592000)%Q.

(** The age in months of the claim, without rounding. *)
Definition exact_months (now t : Z) : Q := (inject_Z (now - t) / 1000 / 2592000)%Q.

(** What page [p] holds, an absent or rejected page holding nothing. *)
Definition page_data (w : World) (p : Z) : list PullRequest :=
  match pulls_list w p with
  | ListData d => data_list d
  | ListThrows => []
  end.

Definition page_is_empty (w : World) (p : Z) : Prop :=
  exists d, pulls_list w p = ListData d /\ no_data d = true.

Definition page_has_data (w : World) (p : Z) : Prop :=
  exists d, pulls_list w p = ListData d /\ no_data d = false.

(** The candidates of pages 1 to [n], in order, none left out. *)
Fixpoint pages_upto (w : World) (n : nat) : list Candidate :=
  match n with
  | O => []
  | S k => pages_upto w k
           ++ page_candidates w (Z.of_nat (S k)) (page_data w (Z.of_nat (S k)))
  end.

Definition cap_reached (w : World) (n : nat) : Prop :=
  MAX_COUNT (env w) <= Z.of_nat (List.length (pages_upto w n)).

(** Pages [j+1 .. n-1] have data and leave the list under the cap; page [n]
    is empty, or has data and brings the list to the cap. *)
Definition stops_at (w : World) (j n : nat) (prs : list Candidate) : Prop :=
  (forall k, (j < k < n)%nat -> page_has_data w (Z.of_nat k) /\ ~ cap_reached w k) /\
  ((page_is_empty w (Z.of_nat n) /\ prs = pages_upto w (n - 1)) \/
   (page_has_data w (Z.of_nat n) /\ cap_reached w n /\ prs = pages_upto w n)).

(** ** Further vocabulary *)

(** The mode the first callback goes on with (lines 43-47). *)
Definition chosen_mode (typed : string) : string :=
  if truthy typed then typed else "DRYRUN".


(** The branches handed to [repos.getBranch] during a run, in order. *)
Definition looked_up (evs : list Event) : list string :=
  flat_map (fun e => match e with CallGetBranch b => [b] | _ => [] end) evs.

(** The prompts shown during a run, in order. *)
Definition questions (evs : list Event) : list Prompt :=
  flat_map (fun e => match e with Question p => [p] | _ => [] end) evs.

(** How many times [rl.close()] is called. *)
Definition closes (evs : list Event) : nat :=
  List.length (flat_map (fun e => match e with Close => [e] | _ => [] end) evs).

(** What the page loop can show: its log lines, [pulls.list] and
    [getBranch]. *)
Definition discovery_event (e : Event) : Prop :=
  match e with
  | Log (AgeReport _ _) => False
  | Log _ | CallList _ _ | CallGetBranch _ => True
  | _ => False
  end.

(** The checks a record of the list has been through. *)
Definition passed_all_filters (w : World) (c : Candidate) : Prop :=
  (exists s, merged_at c = Some s /\ s <> "") /\
  ~ In (branch_name c) FORBIDDEN_HEAD_REFS /\
  In (base_branch_name c) ALLOWED_BASE_REFS /\
  old_enough w c = true.

(** The same environment with other lines typed at the prompts. *)
Definition with_stdin (w : World) (input : list string) : World :=
  {| env := env w; stdin := input; Date_now := Date_now w;
     Date_parse := Date_parse w; pulls_list := pulls_list w;
     getBranch := getBranch w; deleteRef := deleteRef w |}.

(** The pull request numbers and ages of the dry-run report, in order. *)
Definition age_reports (evs : list Event) : list (Z * Number) :=
  flat_map (fun e => match e with Log (AgeReport n a) => [(n, a)] | _ => [] end) evs.

(** Pages [j+1 .. n-1] have data and leave the list under the cap, and the
    call for page [n] is rejected. *)
Definition fails_at (w : World) (j n : nat) : Prop :=
  (forall k, (j < k < n)%nat -> page_has_data w (Z.of_nat k) /\ ~ cap_reached w k) /\
  pulls_list w (Z.of_nat n) = ListThrows.



(** The page number and the page size of every [pulls.list] call, in order. *)
Definition fetches (evs : list Event) : list (Z * Z) :=
  flat_map (fun e => match e with CallList p n => [(p, n)] | _ => [] end) evs.

(** ** A small repository, used to run the model *)

Module Scenario.

Local Open Scope string_scope.

Definition base_env (name : string) : option string :=
  if name =? "OWNER" then Some "acme"
  else if name =? "REPO" then Some "widgets"
  else if name =? "GITHUB_TOKEN" then Some "secret"
  else None.

(** The same, with the candidate cap set to 1. *)
Definition capped_env (name : string) : option string :=
  if name =? "MAX_COUNT" then Some "1" else base_env name.

(** 2024-04-30T00:00:00Z. *)
Definition today : Z := 1714435200000.

Definition parse (s : string) : option Z :=
  if s =? "2024-01-01T00:00:00Z" then Some 1704067200000        (* 120 days before *)
  else if s =? "2024-01-31T00:00:00Z" then Some 1706659200000   (* 90 days before *)
  else if s =? "2024-01-31T00:00:01Z" then Some 1706659201000   (* one second less *)
  else None.

Definition pull (n : Z) (head base : string) (merged : option string) : PullRequest :=
  {| pr_state := "closed"; pr_number := n; pr_title := "change";
     pr_html_url := "https://example.test/pull"; pr_head_ref := head;
     pr_base_ref := base; pr_merged_at := merged |}.

Definition pr1 := pull 1 "feature-a" "master" (Some "2024-01-01T00:00:00Z").
Definition pr2 := pull 2 "feature-a" "master" (Some "2024-01-31T00:00:00Z").
Definition pr3 := pull 3 "feature-b" "master" (Some "2024-01-31T00:00:01Z").
Definition pr4 := pull 4 "staging" "master" (Some "2024-01-01T00:00:00Z").
Definition pr5 := pull 5 "feature-c" "develop" (Some "2024-01-01T00:00:00Z").
Definition pr6 := pull 6 "feature-d" "master" None.
Definition pr7 := pull 7 "gone" "master" (Some "2024-01-01T00:00:00Z").
Definition pr8 := pull 8 "feature-e" "master" (Some "2024-01-01T00:00:00Z").

Definition pages (page : Z) : ListResponse :=
  if (page =? 1)%Z then ListData (Some [pr1; pr2; pr3; pr4; pr5; pr6; pr7])
  else if (page =? 2)%Z then ListData (Some [pr8])
  else ListData (Some []).

Definition lookup (_ : Z) (pr : PullRequest) : BranchResponse :=
  if pr_head_ref pr =? "gone" then BranchThrows
  else BranchData (Some {| bi_message := None |}).

(** The second deletion is rejected, the others succeed. *)
Definition delete (i : nat) (_ : string) : bool := negb (Nat.eqb i 1).

Definition world (e : string -> option string) (input : list string) : World :=
  {| env := e; stdin := input; Date_now := fun _ _ => today;
     Date_parse := parse; pulls_list := pages; getBranch := lookup;
     deleteRef := delete |}.

End Scenario.

Import Scenario.

(** ** More repositories *)

Module MoreRepositories.

Local Open Scope string_scope.

(** The second page cannot be fetched. *)
Definition broken_pages (page : Z) : ListResponse :=
  if (page =? 1)%Z then ListData (Some [pr1; pr3]) else ListThrows.

Definition broken_world (input : list string) : World :=
  {| env := base_env; stdin := input; Date_now := fun _ _ => today;
     Date_parse := parse; pulls_list := broken_pages; getBranch := lookup;
     deleteRef := delete |}.

(** Every page holds one pull request that was closed without a merge. *)
Definition endless_world : World :=
  {| env := base_env; stdin := []; Date_now := fun _ _ => today;
     Date_parse := parse; pulls_list := fun _ => ListData (Some [pr6]);
     getBranch := lookup; deleteRef := delete |}.

(** The cap set to -1. *)
Definition negative_cap_env (name : string) : option string :=
  if name =? "MAX_COUNT" then Some "-1" else base_env name.

End MoreRepositories.

Import MoreRepositories.

(** * Properties *)

(** ** Rounding

    [round x] is a representable value nearest to [x], and it never crosses
    a representable value: a bound of [x] that binary64 can carry is still a
    bound of [round x].  The age comparison needs no more than that. *)

Module JSNumberFacts.

Local Open Scope Q_scope.

Lemma pow2_pos (e : Z) : 0 < 2 ^ e.
Proof. apply Qpower_0_lt. reflexivity. Qed.

Lemma pow2_add (a b : Z) : 2 ^ (a + b) == 2 ^ a * 2 ^ b.
Proof. apply Qpower_plus. discriminate. Qed.

Lemma pow2_Z (n : Z) : (0 <= n)%Z -> inject_Z (2 ^ n) == 2 ^ n.
Proof. intros H. now rewrite Zpower_Qpower. Qed.

Lemma pow2_le (a b : Z) : (a <= b)%Z -> 2 ^ a <= 2 ^ b.
Proof. intros H. apply Qpower_le_compat_l; [exact H | discriminate]. Qed.

Lemma rne_bounds (y : Q) : (Qfloor y <= rne y <= Qfloor y + 1)%Z.
Proof.
  unfold rne. destruct (_ ?= _); [destruct (Z.even _) | |]; lia.
Qed.

Lemma rne_le (y : Q) (F : Z) : y <= inject_Z F -> (rne y <= F)%Z.
Proof.
  intros H. destruct (Z_lt_le_dec (Qfloor y) F) as [Hlt | Hge].
  - pose proof (rne_bounds y). lia.
  - assert (Hq : Qfloor y = F).
    { apply Qfloor_resp_le in H. rewrite Qfloor_Z in H. lia. }
    pose proof (Qfloor_le y) as Hf. rewrite Hq in Hf.
    unfold rne. rewrite Hq.
    assert (Hc : (y - inject_Z F ?= 1 # 2) = Lt).
    { rewrite <- Qlt_alt. lra. }
    rewrite Hc. lia.
Qed.

Lemma rne_ge (y : Q) (F : Z) : inject_Z F <= y -> (F <= rne y)%Z.
Proof.
  intros H. apply Qfloor_resp_le in H. rewrite Qfloor_Z in H.
  pose proof (rne_bounds y). lia.
Qed.

Lemma Qdiv_pow2 (x : Q) (e : Z) : x / 2 ^ e == x * 2 ^ (- e).
Proof. unfold Qdiv. now rewrite Qpower_opp. Qed.

Lemma log2_bounds_Q (n : Z) :
  (0 < n)%Z -> 2 ^ Z.log2 n <= inject_Z n /\ inject_Z n < 2 * 2 ^ Z.log2 n.
Proof.
  intros Hn. destruct (Z.log2_spec n Hn) as [Hlo Hhi].
  pose proof (Z.log2_nonneg n) as H0.
  split.
  - rewrite <- pow2_Z by assumption. now rewrite <- Zle_Qle.
  - assert (H2 : 2 * 2 ^ Z.log2 n == inject_Z (2 ^ Z.succ (Z.log2 n))).
    { rewrite Z.pow_succ_r by assumption. rewrite inject_Z_mult.
      now rewrite pow2_Z. }
    rewrite H2. now rewrite <- Zlt_Qlt.
Qed.

Lemma ulp_exp_coarse (x : Q) :
  0 < x ->
  let e0 := (Z.log2 (Qnum x) - Z.log2 (Zpos (Qden x)) - 53)%Z in
  inject_Z (2 ^ 52) < x / 2 ^ e0 /\ x / 2 ^ e0 < inject_Z (2 ^ 54).
Proof.
  intros Hx e0.
  assert (HN : (0 < Qnum x)%Z).
  { destruct x as [n d]. unfold Qlt in Hx. simpl in *. lia. }
  destruct (log2_bounds_Q _ HN) as [Na Nb].
  destruct (log2_bounds_Q (Zpos (Qden x)) eq_refl) as [Da Db].
  set (a := Z.log2 (Qnum x)) in *. set (b := Z.log2 (Zpos (Qden x))) in *.
  assert (HP : 2 ^ (- e0) * 2 ^ a == inject_Z (2 ^ 53) * 2 ^ b).
  { rewrite <- pow2_add. replace (- e0 + a)%Z with (53 + b)%Z by (unfold e0; lia).
    rewrite pow2_add. now rewrite <- pow2_Z by lia. }
  pose proof (pow2_pos (- e0)) as Pp. pose proof (pow2_pos a) as Ap.
  pose proof (pow2_pos b) as Bp.
  assert (Hxe : x == inject_Z (Qnum x) / inject_Z (Zpos (Qden x))).
  { destruct x as [n d]. simpl. apply Qmake_Qdiv. }
  rewrite Qdiv_pow2.
  set (P := 2 ^ (- e0)) in *. set (A := 2 ^ a) in *. set (B := 2 ^ b) in *.
  set (N := inject_Z (Qnum x)) in *. set (D := inject_Z (Zpos (Qden x))) in *.
  assert (Dp : 0 < D) by reflexivity.
  assert (HxD : x * D == N).
  { rewrite Hxe. field. lra. }
  change (inject_Z (2 ^ 52)) with (4503599627370496 # 1).
  change (inject_Z (2 ^ 54)) with (18014398509481984 # 1).
  change (inject_Z (2 ^ 53)) with (9007199254740992 # 1) in HP.
  split.
  - apply Qmult_lt_r with (z := D); [assumption|].
    setoid_replace (x * P * D) with (N * P) by (rewrite <- HxD; ring).
    nra.
  - apply Qmult_lt_r with (z := D); [assumption|].
    setoid_replace (x * P * D) with (N * P) by (rewrite <- HxD; ring).
    nra.
Qed.

Lemma ulp_exp_spec (x : Q) :
  0 < x ->
  inject_Z (2 ^ 52) <= x / 2 ^ ulp_exp x /\ x / 2 ^ ulp_exp x < inject_Z (2 ^ 53).
Proof.
  intros Hx. destruct (ulp_exp_coarse x Hx) as [Hlo Hhi].
  unfold ulp_exp.
  set (e0 := (Z.log2 (Qnum x) - Z.log2 (Zpos (Qden x)) - 53)%Z) in *.
  destruct (Z.ltb_spec (Qfloor (x / 2 ^ e0)) (2 ^ 53)) as [Hs | Hb].
  - split; [apply Qlt_le_weak; exact Hlo|].
    pose proof (Qlt_floor (x / 2 ^ e0)) as Hf.
    eapply Qlt_le_trans; [exact Hf|]. rewrite <- Zle_Qle. lia.
  - assert (Hy : inject_Z (2 ^ 53) <= x / 2 ^ e0).
    { eapply Qle_trans; [|apply Qfloor_le]. now rewrite <- Zle_Qle. }
    assert (Hh : x / 2 ^ (e0 + 1) == x / 2 ^ e0 * (1 # 2)).
    { rewrite !Qdiv_pow2. replace (- (e0 + 1))%Z with (- e0 + -1)%Z by lia.
      rewrite pow2_add. change (2 ^ (-1)) with (1 # 2). ring. }
    rewrite Hh.
    change (inject_Z (2 ^ 52)) with (4503599627370496 # 1) in *.
    change (inject_Z (2 ^ 53)) with (9007199254740992 # 1) in *.
    change (inject_Z (2 ^ 54)) with (18014398509481984 # 1) in *.
    split; lra.
Qed.

Lemma round_pos_eq (x : Q) :
  round_pos x == inject_Z (rne (x / 2 ^ ulp_exp x)) * 2 ^ ulp_exp x.
Proof. unfold round_pos. apply Qred_correct. Qed.

Lemma scale_back (x : Q) (e : Z) : x / 2 ^ e * 2 ^ e == x.
Proof. field. apply Qnot_eq_sym, Qlt_not_eq, pow2_pos. Qed.

Lemma repr_scaled (m k e : Z) :
  (e <= k)%Z -> inject_Z m * 2 ^ k / 2 ^ e == inject_Z (m * 2 ^ (k - e)).
Proof.
  intros H. rewrite inject_Z_mult, pow2_Z by lia.
  replace (k - e)%Z with (k + - e)%Z by lia. rewrite pow2_add, Qdiv_pow2. ring.
Qed.

Lemma repr_small (m k e : Z) :
  (Z.abs m <= 2 ^ 53)%Z -> (k < e)%Z ->
  inject_Z m * 2 ^ k <= inject_Z (2 ^ 52) * 2 ^ e.
Proof.
  intros Hm Hk.
  assert (H1 : inject_Z m <= inject_Z (2 ^ 53)) by (rewrite <- Zle_Qle; lia).
  assert (H2 : 2 ^ k <= 2 ^ (e - 1)) by (apply pow2_le; lia).
  assert (H3 : 2 ^ e == 2 * 2 ^ (e - 1)).
  { replace e with (1 + (e - 1))%Z at 1 by lia. now rewrite pow2_add. }
  pose proof (pow2_pos k). pose proof (pow2_pos (e - 1)).
  rewrite H3.
  change (inject_Z (2 ^ 52)) with (4503599627370496 # 1).
  change (inject_Z (2 ^ 53)) with (9007199254740992 # 1) in H1.
  nra.
Qed.

Lemma round_pos_le (x f : Q) :
  0 < x -> representable f -> x <= f -> round_pos x <= f.
Proof.
  intros Hx (m & k & Hm & Hf) Hxf.
  destruct (ulp_exp_spec x Hx) as [Hlo Hhi].
  rewrite round_pos_eq. set (e := ulp_exp x) in *.
  pose proof (pow2_pos e) as He. pose proof (scale_back x e) as Hsb.
  destruct (Z_le_gt_dec e k) as [Hek | Hke].
  - assert (Hy : x / 2 ^ e <= inject_Z (m * 2 ^ (k - e))).
    { rewrite <- repr_scaled by assumption. rewrite <- Hf.
      unfold Qdiv. apply Qmult_le_compat_r; [assumption|].
      apply Qlt_le_weak, Qinv_lt_0_compat, He. }
    apply rne_le in Hy. rewrite Zle_Qle in Hy.
    rewrite Hf. rewrite <- (scale_back (inject_Z m * 2 ^ k) e).
    rewrite repr_scaled by assumption.
    apply Qmult_le_compat_r; [assumption | now apply Qlt_le_weak].
  - pose proof (repr_small m k e Hm ltac:(lia)) as Hs. rewrite <- Hf in Hs.
    assert (Hy : x / 2 ^ e <= inject_Z (2 ^ 52)).
    { apply Qmult_le_r with (z := 2 ^ e); [assumption|]. rewrite Hsb.
      now apply Qle_trans with f. }
    apply rne_le in Hy. rewrite Zle_Qle in Hy.
    apply Qle_trans with (inject_Z (2 ^ 52) * 2 ^ e).
    + apply Qmult_le_compat_r; [assumption | now apply Qlt_le_weak].
    + apply Qle_trans with x; [|assumption]. rewrite <- Hsb.
      apply Qmult_le_compat_r; [assumption | now apply Qlt_le_weak].
Qed.

Lemma round_pos_ge (x f : Q) :
  0 < x -> representable f -> f <= x -> f <= round_pos x.
Proof.
  intros Hx (m & k & Hm & Hf) Hxf.
  destruct (ulp_exp_spec x Hx) as [Hlo Hhi].
  rewrite round_pos_eq. set (e := ulp_exp x) in *.
  pose proof (pow2_pos e) as He. pose proof (scale_back x e) as Hsb.
  destruct (Z_le_gt_dec e k) as [Hek | Hke].
  - assert (Hy : inject_Z (m * 2 ^ (k - e)) <= x / 2 ^ e).
    { rewrite <- repr_scaled by assumption. rewrite <- Hf.
      unfold Qdiv. apply Qmult_le_compat_r; [assumption|].
      apply Qlt_le_weak, Qinv_lt_0_compat, He. }
    apply rne_ge in Hy. rewrite Zle_Qle in Hy.
    rewrite Hf. rewrite <- (scale_back (inject_Z m * 2 ^ k) e).
    rewrite repr_scaled by assumption.
    apply Qmult_le_compat_r; [assumption | now apply Qlt_le_weak].
  - pose proof (repr_small m k e Hm ltac:(lia)) as Hs. rewrite <- Hf in Hs.
    apply rne_ge in Hlo. rewrite Zle_Qle in Hlo.
    apply Qle_trans with (inject_Z (2 ^ 52) * 2 ^ e); [assumption|].
    apply Qmult_le_compat_r; [assumption | now apply Qlt_le_weak].
Qed.

(** [rne y] is an integer nearest to [y]. *)
Lemma rne_nearest (y : Q) (F : Z) :
  Qabs (inject_Z (rne y) - y) <= Qabs (inject_Z F - y).
Proof.
  pose proof (Qfloor_le y) as Hlo. pose proof (Qlt_floor y) as Hhi.
  rewrite inject_Z_plus in Hhi. change (inject_Z 1) with 1 in Hhi.
  assert (HF : inject_Z F <= inject_Z (Qfloor y) \/ inject_Z (Qfloor y) + 1 <= inject_Z F).
  { destruct (Z_le_gt_dec F (Qfloor y)) as [H | H].
    - left. now rewrite <- Zle_Qle.
    - right. change 1 with (inject_Z 1). rewrite <- inject_Z_plus, <- Zle_Qle. lia. }
  unfold rne. set (q := Qfloor y) in *.
  destruct (y - inject_Z q ?= 1 # 2) eqn:Hc.
  - apply Qeq_alt in Hc.
    destruct (Z.even q); [|rewrite inject_Z_plus; change (inject_Z 1) with 1];
      apply Qabs_case; intros; apply Qabs_case; intros; destruct HF; lra.
  - apply Qlt_alt in Hc.
    apply Qabs_case; intros; apply Qabs_case; intros; destruct HF; lra.
  - apply Qgt_alt in Hc. rewrite inject_Z_plus. change (inject_Z 1) with 1.
    apply Qabs_case; intros; apply Qabs_case; intros; destruct HF; lra.
Qed.

Lemma round_pos_representable (x : Q) : 0 < x -> representable (round_pos x).
Proof.
  intros Hx. destruct (ulp_exp_spec x Hx) as [Hlo Hhi].
  exists (rne (x / 2 ^ ulp_exp x)), (ulp_exp x). split; [|apply round_pos_eq].
  pose proof (rne_bounds (x / 2 ^ ulp_exp x)) as Hb.
  assert (H1 : (2 ^ 52 <= Qfloor (x / 2 ^ ulp_exp x))%Z).
  { apply Qfloor_resp_le in Hlo. now rewrite Qfloor_Z in Hlo. }
  assert (H2 : (Qfloor (x / 2 ^ ulp_exp x) < 2 ^ 53)%Z).
  { rewrite Zlt_Qlt. eapply Qle_lt_trans; [apply Qfloor_le | exact Hhi]. }
  change (2 ^ 52)%Z with 4503599627370496%Z in H1.
  change (2 ^ 53)%Z with 9007199254740992%Z in *. lia.
Qed.

Lemma Qabs_scale (a u : Q) : 0 < u -> Qabs (a * u) == Qabs a * u.
Proof. intros H. rewrite Qabs_Qmult, (Qabs_pos u); [reflexivity | lra]. Qed.

Lemma round_pos_nearest (x f : Q) :
  0 < x -> representable f -> Qabs (round_pos x - x) <= Qabs (f - x).
Proof.
  intros Hx (m & k & Hm & Hf).
  destruct (ulp_exp_spec x Hx) as [Hlo Hhi].
  rewrite round_pos_eq. set (e := ulp_exp x) in *.
  pose proof (pow2_pos e) as He. pose proof (scale_back x e) as Hsb.
  set (y := x / 2 ^ e) in *.
  assert (E1 : inject_Z (rne y) * 2 ^ e - x == (inject_Z (rne y) - y) * 2 ^ e)
    by (rewrite <- Hsb at 1; ring).
  rewrite E1, Qabs_scale by assumption.
  destruct (Z_le_gt_dec e k) as [Hek | Hke].
  - assert (E2 : f - x == (inject_Z (m * 2 ^ (k - e)) - y) * 2 ^ e).
    { rewrite <- repr_scaled by assumption. rewrite <- Hf.
      rewrite <- Hsb at 1. unfold y. field.
      apply Qnot_eq_sym, Qlt_not_eq, He. }
    rewrite E2, Qabs_scale by assumption.
    apply Qmult_le_compat_r; [apply rne_nearest | now apply Qlt_le_weak].
  - pose proof (repr_small m k e Hm ltac:(lia)) as Hs. rewrite <- Hf in Hs.
    assert (E2 : f - x == (f / 2 ^ e - y) * 2 ^ e).
    { rewrite <- Hsb at 1. unfold y. field. apply Qnot_eq_sym, Qlt_not_eq, He. }
    rewrite E2, Qabs_scale by assumption.
    apply Qmult_le_compat_r; [|now apply Qlt_le_weak].
    assert (Hfe : f / 2 ^ e <= inject_Z (2 ^ 52)).
    { apply Qle_shift_div_r; assumption. }
    eapply Qle_trans; [apply (rne_nearest y (2 ^ 52))|].
    apply Qabs_case; intros; apply Qabs_case; intros; lra.
Qed.

Lemma representable_opp (f : Q) : representable f -> representable (- f).
Proof.
  intros (m & k & Hm & Hf). exists (- m)%Z, k. split; [lia|].
  rewrite Hf, inject_Z_opp. ring.
Qed.

Lemma representable_Z (z : Z) : (Z.abs z <= 2 ^ 53)%Z -> representable (inject_Z z).
Proof. intros H. exists z, 0%Z. split; [exact H|]. simpl. ring. Qed.

Lemma representable_dyadic (m k : Z) :
  (Z.abs m <= 2 ^ 53)%Z -> representable (inject_Z m * 2 ^ k).
Proof. intros H. exists m, k. split; [exact H | reflexivity]. Qed.

Lemma round_cases (x : Q) :
  (x == 0 /\ round x = 0) \/
  (0 < x /\ round x = round_pos x) \/
  (x < 0 /\ round x = Qred (- round_pos (- x))).
Proof.
  destruct x as [[|p|p] d]; unfold round; simpl.
  - left. split; reflexivity.
  - right. left. split; reflexivity.
  - right. right. split; reflexivity.
Qed.

Lemma round_le (x f : Q) : representable f -> x <= f -> round x <= f.
Proof.
  intros Hf Hxf.
  destruct (round_cases x) as [[Hx ->] | [[Hx ->] | [Hx ->]]].
  - now rewrite <- Hx.
  - now apply round_pos_le.
  - rewrite Qred_correct.
    assert (H : - f <= round_pos (- x)).
    { apply round_pos_ge; [lra | now apply representable_opp | lra]. }
    lra.
Qed.

Lemma round_ge (x f : Q) : representable f -> f <= x -> f <= round x.
Proof.
  intros Hf Hxf.
  destruct (round_cases x) as [[Hx ->] | [[Hx ->] | [Hx ->]]].
  - now rewrite <- Hx.
  - now apply round_pos_ge.
  - rewrite Qred_correct.
    assert (H : round_pos (- x) <= - f).
    { apply round_pos_le; [lra | now apply representable_opp | lra]. }
    lra.
Qed.

Lemma round_id (f : Q) : representable f -> round f == f.
Proof.
  intros Hf. apply Qle_antisym.
  - apply round_le; [assumption | apply Qle_refl].
  - apply round_ge; [assumption | apply Qle_refl].
Qed.

Lemma representable_0 : representable 0.
Proof. exists 0%Z, 0%Z. split; [discriminate | reflexivity]. Qed.

Lemma representable_eq (f g : Q) : f == g -> representable f -> representable g.
Proof. intros E (m & k & Hm & Hf). exists m, k. split; [exact Hm|]. now rewrite <- E. Qed.

Lemma round_representable (x : Q) : representable (round x).
Proof.
  destruct (round_cases x) as [[Hx ->] | [[Hx ->] | [Hx ->]]].
  - apply representable_0.
  - now apply round_pos_representable.
  - apply (representable_eq (- round_pos (- x))); [symmetry; apply Qred_correct|].
    apply representable_opp, round_pos_representable. lra.
Qed.

(** [round x] is a representable value nearest to [x]. *)
Lemma round_nearest (x f : Q) :
  representable f -> Qabs (round x - x) <= Qabs (f - x).
Proof.
  intros Hf. destruct (round_cases x) as [[Hx ->] | [[Hx ->] | [Hx ->]]].
  - setoid_replace (0 - x) with 0 by (rewrite Hx; ring). apply Qabs_nonneg.
  - now apply round_pos_nearest.
  - rewrite Qred_correct.
    pose proof (round_pos_nearest (- x) (- f) ltac:(lra) (representable_opp f Hf)) as H.
    setoid_replace (- round_pos (- x) - x) with (- (round_pos (- x) - - x)) by ring.
    setoid_replace (f - x) with (- (- f - - x)) by ring.
    now rewrite !Qabs_opp.
Qed.

Example round_samples :
  round (1 # 3) = (6004799503160661 # 18014398509481984) /\
  round (1 # 10) = (3602879701896397 # 36028797018963968) /\
  round (9007199254740993 # 1) = (9007199254740992 # 1) /\
  round (9007199254740995 # 1) = (9007199254740996 # 1) /\
  round (- (7 # 2)) = (- (7 # 2)) /\
  round (7775999999 # 1000) = (4174708211175129 # 536870912).
Proof. vm_compute. repeat split. Qed.

End JSNumberFacts.

Import JSNumberFacts.

(** ** Projections of the event list *)

Lemma deleted_refs_app (a b : list Event) :
  deleted_refs (a ++ b) = deleted_refs a ++ deleted_refs b.
Proof. apply flat_map_app. Qed.

Lemma written_app (a b : list Event) : written (a ++ b) = written a ++ written b.
Proof. apply flat_map_app. Qed.

Lemma listed_pages_app (a b : list Event) :
  listed_pages (a ++ b) = listed_pages a ++ listed_pages b.
Proof. apply flat_map_app. Qed.

Lemma quiet_app (a b : list Event) : quiet a -> quiet b -> quiet (a ++ b).
Proof.
  intros (A1 & A2 & A3) (B1 & B2 & B3). unfold quiet.
  now rewrite deleted_refs_app, written_app, listed_pages_app, A1, A2, A3, B1, B2, B3.
Qed.

Lemma quiet_map {A : Type} (f : A -> Event) (l : list A) :
  (forall x, quiet [f x]) -> quiet (map f l).
Proof.
  intros H. induction l as [|x l IH]; [now split|].
  change (map f (x :: l)) with ([f x] ++ map f l). now apply quiet_app.
Qed.

Lemma page_events_quiet (w : World) (page : Z) (data : list PullRequest) :
  quiet (page_events w page data).
Proof.
  unfold page_events. apply quiet_app; apply quiet_map; intros x; now split.
Qed.

Lemma discover_no_side_effect (w : World) (fuel : nat) :
  forall page acc,
    deleted_refs (fst (discover w fuel page acc)) = [] /\
    written (fst (discover w fuel page acc)) = [].
Proof.
  induction fuel as [|fuel IH]; intros page acc; simpl; [now split|].
  destruct (pulls_list w page) as [|data]; [now split|].
  destruct (no_data data); [now split|].
  destruct (page_events_quiet w page (data_list data)) as (Q1 & Q2 & _).
  destruct (_ <=? _).
  - simpl. rewrite deleted_refs_app, written_app, Q1, Q2. now split.
  - specialize (IH (page + 1) (acc ++ page_candidates w page (data_list data))).
    destruct (discover w fuel _ _) as [rest d]. simpl in *.
    change (Log ?l :: rest) with ([Log l] ++ rest).
    rewrite !deleted_refs_app, !written_app, Q1, Q2. simpl. exact IH.
Qed.

Lemma delete_loop_refs (w : World) (prs : list Candidate) :
  forall i, deleted_refs (delete_loop w i prs) = map branch_name prs.
Proof.
  induction prs as [|c prs IH]; intros i; [reflexivity|].
  simpl. rewrite IH. now destruct (deleteRef w i (branch_name c)).
Qed.

Lemma delete_loop_writes_nothing (w : World) (prs : list Candidate) :
  forall i, written (delete_loop w i prs) = [].
Proof.
  induction prs as [|c prs IH]; intros i; [reflexivity|].
  simpl. rewrite IH. now destruct (deleteRef w i (branch_name c)).
Qed.

Lemma dry_run_report_quiet (prs : list Candidate) : quiet (dry_run_report prs).
Proof.
  unfold dry_run_report. change (Log JustLogging :: ?l) with ([Log JustLogging] ++ l).
  apply quiet_app; [now split|].
  induction prs as [|c prs IH]; [now split|].
  simpl. destruct IH as (A & B & C). repeat split; assumption.
Qed.

(** What [after_discovery] shows, by cases on the mode and the last answer. *)
Lemma after_discovery_deletes (w : World) (mode : string) (input : list string)
  (prs : list Candidate) :
  deleted_refs (fst (after_discovery w mode input prs)) <> [] ->
  mode = "NUKE" /\ exists rest, input = "NUKE" :: rest.
Proof.
  unfold after_discovery. destruct (String.eqb_spec mode "NUKE") as [-> | Hm].
  - destruct input as [|confirm rest]; [simpl; congruence|].
    destruct (String.eqb_spec confirm "NUKE") as [-> | Hc]; simpl.
    + intros _. split; [reflexivity | now exists rest].
    + congruence.
  - cbn [fst]. rewrite !deleted_refs_app.
    destruct (dry_run_report_quiet prs) as (Q & _). rewrite Q. simpl. congruence.
Qed.

Lemma on_answer_deletes (w : World) (fuel : nat) (mode answer : string)
  (input : list string) :
  deleted_refs (fst (on_answer w fuel mode answer input)) <> [] ->
  mode = "NUKE" /\ answer = "YES I DO" /\ exists rest, input = "NUKE" :: rest.
Proof.
  unfold on_answer.
  destruct (String.eqb_spec mode "NUKE") as [Hm | Hm];
    destruct (String.eqb_spec answer "YES I DO") as [Ha | Ha]; simpl;
    try congruence.
  all: destruct (discover_no_side_effect w fuel 1 []) as [Hd _];
    destruct (discover w fuel 1 []) as [evs [prs | |]]; simpl in *;
    try (rewrite Hd; congruence).
  all: pose proof (after_discovery_deletes w mode input prs) as H;
    destruct (after_discovery w mode input prs) as [evs' o]; simpl in *;
    rewrite deleted_refs_app, Hd; simpl; intros Hne; specialize (H Hne).
  all: destruct H as [Hm' Hr]; try contradiction; now repeat split.
Qed.

(** C1.  [deleteRef] is called in a run only when the operator typed NUKE at
    the mode prompt, YES I DO at the second prompt and NUKE at the last one;
    a dry run, or a run where either confirmation differs, deletes nothing. *)
Theorem deletion_needs_both_confirmations (w : World) (fuel : nat) :
  deleted_refs (fst (run w fuel)) <> [] ->
  exists rest, stdin w = "NUKE" :: "YES I DO" :: "NUKE" :: rest.
Proof.
  unfold run. destruct (allRequiredVarsPresent (env w)); simpl; [|congruence].
  destruct (stdin w) as [|typed input]; simpl; [congruence|].
  unfold on_mode.
  set (mode := if truthy typed then typed else "DRYRUN").
  destruct (includes ["DRYRUN"; "NUKE"] mode); simpl; [|congruence].
  destruct input as [|answer input]; simpl; [congruence|].
  pose proof (on_answer_deletes w fuel mode answer input) as H.
  destruct (on_answer w fuel mode answer input) as [evs o]. simpl in *.
  intros Hne. destruct (H Hne) as (Hm & -> & rest & ->).
  exists rest. f_equal. unfold mode in Hm.
  destruct (truthy typed); [assumption | discriminate].
Qed.

Lemma deletion_needs_both_confirmations_witness :
  let w := world base_env ["NUKE"; "YES I DO"; "NUKE"] in
  deleted_refs (fst (run w 3)) <> [] /\
  exists rest, stdin w = "NUKE" :: "YES I DO" :: "NUKE" :: rest.
Proof.
  intros w.
  assert (H : deleted_refs (fst (run w 3)) <> []) by (vm_compute; discriminate).
  split; [exact H|]. exact (deletion_needs_both_confirmations w 3 H).
Defined.

Lemma run_after_gates (w : World) (fuel : nat) (mode : string) (input : list string) :
  starts_discovery w mode input ->
  run w fuel =
  let opening := [Question AskMode; Log (ModeSelected mode);
                  Question (AskRun mode); Log NoTurningBack] in
  match discover w fuel 1 [] with
  | (evs, Found prs) =>
      (opening ++ evs ++ fst (after_discovery w mode input prs),
       snd (after_discovery w mode input prs))
  | (evs, FetchFailed) => (opening ++ evs, Rejected)
  | (evs, StillPaging) => (opening ++ evs, OutOfFuel)
  end.
Proof.
  intros (Henv & typed & answer & Hin & Hmode & Hok & Hyes).
  unfold run. rewrite Henv, Hin. cbn [negb]. unfold on_mode.
  rewrite <- Hmode, Hok. cbn [negb]. unfold on_answer.
  assert (Hgate : (mode =? "NUKE")%string && negb (answer =? "YES I DO")%string = false).
  { destruct (String.eqb_spec mode "NUKE") as [Hm | Hm]; [|reflexivity].
    rewrite (Hyes Hm). reflexivity. }
  rewrite Hgate.
  destruct (discover w fuel 1 []) as [evs [prs | |]]; try reflexivity.
  destruct (after_discovery w mode input prs) as [evs' o]. reflexivity.
Qed.

(** C9.  A run that reaches the end of discovery with the list [prs] writes
    [prs] to ./merged-prs.json exactly once, and nothing is deleted before
    that write; this holds in both modes and whatever is typed at the last
    prompt. *)
Theorem result_written_once_before_deleting (w : World) (fuel : nat)
  (mode : string) (input : list string) (prs : list Candidate) :
  starts_discovery w mode input ->
  snd (discover w fuel 1 []) = Found prs ->
  exists pre post,
    fst (run w fuel) = pre ++ WriteFile result_path prs :: post /\
    deleted_refs pre = [] /\ written pre = [] /\ written post = [].
Proof.
  intros Hs Hd. rewrite (run_after_gates w fuel mode input Hs).
  destruct (discover_no_side_effect w fuel 1 []) as [D W].
  destruct (discover w fuel 1 []) as [evs d]. cbn [fst snd] in *. subst d.
  exists ([Question AskMode; Log (ModeSelected mode); Question (AskRun mode);
           Log NoTurningBack] ++ evs).
  unfold after_discovery.
  destruct (mode =? "NUKE")%string.
  - destruct input as [|confirm rest]; [|destruct (negb (confirm =? "NUKE")%string)];
      cbn [fst]; eexists; (split; [rewrite app_assoc; reflexivity|]);
      rewrite ?deleted_refs_app, ?written_app, ?D, ?W; repeat split; try reflexivity.
    change (written (Log ?l :: Question ?q :: ?r)) with (written r).
    rewrite written_app, delete_loop_writes_nothing. reflexivity.
  - cbn [fst]. eexists. split; [rewrite app_assoc; reflexivity|].
    rewrite ?deleted_refs_app, ?written_app, ?D, ?W. repeat split.
    change (written (Log ?l :: ?r)) with (written r). rewrite written_app.
    destruct (dry_run_report_quiet prs) as (_ & Q & _). now rewrite Q.
Qed.

Lemma result_written_once_before_deleting_witness :
  let w := world base_env ["NUKE"; "YES I DO"; "no"] in
  exists pre post,
    fst (run w 3) = pre ++ WriteFile result_path (pages_upto w 2) :: post /\
    deleted_refs pre = [] /\ written pre = [] /\ written post = [].
Proof.
  intros w.
  apply (result_written_once_before_deleting w 3 "NUKE" ["no"]).
  - split; [reflexivity|]. exists "NUKE", "YES I DO". repeat split.
  - vm_compute. reflexivity.
Defined.

(** The first two gates leave with exit code 1. *)
Lemma unsupported_mode_exits_1 (w : World) (fuel : nat) (typed : string)
  (input : list string) :
  allRequiredVarsPresent (env w) = true ->
  stdin w = typed :: input ->
  includes ["DRYRUN"; "NUKE"] (if truthy typed then typed else "DRYRUN") = false ->
  snd (run w fuel) = Exited 1.
Proof.
  intros Henv Hin Hbad. unfold run. rewrite Henv, Hin. cbn [negb].
  unfold on_mode. rewrite Hbad. reflexivity.
Qed.

Lemma unconfirmed_run_exits_1 (w : World) (fuel : nat) (answer : string)
  (input : list string) :
  allRequiredVarsPresent (env w) = true ->
  stdin w = "NUKE" :: answer :: input ->
  answer <> "YES I DO" ->
  snd (run w fuel) = Exited 1.
Proof.
  intros Henv Hin Hno. unfold run. rewrite Henv, Hin. cbn.
  unfold on_answer. cbn.
  destruct (String.eqb_spec answer "YES I DO"); [contradiction | reflexivity].
Qed.

(** The last gate leaves through [process.exit()] without a code. *)
Lemma unconfirmed_nuke_exits_0 (w : World) (fuel : nat) (confirm : string)
  (input : list string) (prs : list Candidate) :
  starts_discovery w "NUKE" (confirm :: input) ->
  snd (discover w fuel 1 []) = Found prs ->
  confirm <> "NUKE" ->
  snd (run w fuel) = Exited 0.
Proof.
  intros Hs Hd Hno. rewrite (run_after_gates w fuel _ _ Hs).
  destruct (discover w fuel 1 []) as [evs d]. cbn [snd] in Hd. subst d.
  cbn. destruct (String.eqb_spec confirm "NUKE"); [contradiction | reflexivity].
Qed.

(** C2.  Typing anything but NUKE at the last prompt ends the run with exit
    code 0, not 1: after NUKE and YES I DO, the answer "no" leaves through
    [process.exit()] at line 170. *)
Theorem final_rejection_exit_code :
  exit_code (snd (run (world base_env ["NUKE"; "YES I DO"; "no"]) 3)) = Some 0.
Proof. vm_compute. reflexivity. Qed.

Lemma delete_loop_length (w : World) (prs : list Candidate) :
  forall i, List.length (delete_loop w i prs) = (3 * List.length prs)%nat.
Proof.
  induction prs as [|c prs IH]; intros i; [reflexivity|].
  cbn [delete_loop app List.length]. rewrite IH. lia.
Qed.

(** The three events of the [j]-th iteration. *)
Lemma delete_loop_nth (w : World) (prs : list Candidate) :
  forall i j c,
    nth_error prs j = Some c ->
    nth_error (delete_loop w i prs) (3 * j) = Some (Log (Attempting (branch_name c))) /\
    nth_error (delete_loop w i prs) (3 * j + 1) = Some (CallDeleteRef (branch_name c)) /\
    nth_error (delete_loop w i prs) (3 * j + 2)
    = Some (if deleteRef w (i + j) (branch_name c) then Log Removed
            else Log (DeleteFailed (html_url c) (branch_name c))).
Proof.
  induction prs as [|c0 prs IH]; intros i j c Hj.
  - destruct j; discriminate.
  - destruct j as [|j].
    + injection Hj as ->. rewrite Nat.add_0_r. repeat split.
    + cbn [nth_error] in Hj. destruct (IH (S i) j c Hj) as (A & B & C).
      replace (3 * S j)%nat with (S (S (S (3 * j)))) by lia.
      replace (i + S j)%nat with (S i + j)%nat by lia.
      cbn [delete_loop app Nat.add nth_error]. auto.
Qed.

Lemma confirmed_nuke_refs (w : World) (input : list string) (prs : list Candidate) :
  deleted_refs (fst (after_discovery w "NUKE" ("NUKE" :: input) prs))
  = map branch_name prs.
Proof.
  unfold after_discovery. cbn [String.eqb Ascii.eqb Bool.eqb negb fst].
  change (deleted_refs (?a ++ Question ?q :: ?l)) with (deleted_refs l).
  rewrite deleted_refs_app, delete_loop_refs. apply app_nil_r.
Qed.

(** C8.  Once NUKE is confirmed, the loop handles the candidates one after
    the other in list order: iteration [j] logs the attempt, calls
    [deleteRef] once on the [j]-th branch, and logs the result, a rejection
    included; then it goes on with the next candidate.  Every candidate is
    attempted exactly once whatever the calls answer, and the run completes. *)
Theorem deletion_attempts_every_candidate_once (w : World) (input : list string)
  (prs : list Candidate) :
  let r := after_discovery w "NUKE" ("NUKE" :: input) prs in
  deleted_refs (fst r) = map branch_name prs /\
  snd r = Completed /\
  List.length (delete_loop w 0 prs) = (3 * List.length prs)%nat /\
  forall j c,
    nth_error prs j = Some c ->
    nth_error (delete_loop w 0 prs) (3 * j) = Some (Log (Attempting (branch_name c))) /\
    nth_error (delete_loop w 0 prs) (3 * j + 1) = Some (CallDeleteRef (branch_name c)) /\
    nth_error (delete_loop w 0 prs) (3 * j + 2)
    = Some (if deleteRef w j (branch_name c) then Log Removed
            else Log (DeleteFailed (html_url c) (branch_name c))).
Proof.
  cbn zeta. repeat split.
  - apply confirmed_nuke_refs.
  - apply delete_loop_length.
  - now apply (delete_loop_nth w prs 0 j c).
  - now apply (delete_loop_nth w prs 0 j c).
  - now apply (delete_loop_nth w prs 0 j c).
Qed.

Lemma deletion_attempts_every_candidate_once_witness :
  let w := world base_env [] in
  let c := to_candidate w 1 (pr2, None) in
  let prs := page_candidates w 1 [pr1; pr2; pr3] in
  deleted_refs (fst (after_discovery w "NUKE" ["NUKE"] prs)) = ["feature-a"; "feature-a"] /\
  nth_error (delete_loop w 0 prs) 5
  = Some (Log (DeleteFailed "https://example.test/pull" "feature-a")).
Proof.
  intros w c prs.
  destruct (deletion_attempts_every_candidate_once w [] prs) as (A & _ & _ & B).
  split; [exact A|].
  destruct (B 1%nat c) as (_ & _ & C); [reflexivity | exact C].
Defined.

(** ** The pipeline, one pull request at a time *)

Section PipelineFacts.

Variable w : World.
Variable page : Z.

Lemma includes_In (l : list string) (s : string) : includes l s = true <-> In s l.
Proof.
  unfold includes. rewrite existsb_exists. split.
  - intros (x & Hx & He). apply String.eqb_eq in He. now subst.
  - intros H. exists s. split; [assumption | apply String.eqb_refl].
Qed.

Lemma locally_eligible_spec (pr : PullRequest) :
  locally_eligible pr = true <->
  (exists s, pr_merged_at pr = Some s /\ s <> "") /\
  ~ In (pr_head_ref pr) FORBIDDEN_HEAD_REFS /\
  In (pr_base_ref pr) ALLOWED_BASE_REFS.
Proof.
  unfold locally_eligible. rewrite !andb_true_iff, negb_true_iff, <- includes_In.
  rewrite <- not_true_iff_false, <- includes_In.
  assert (H : match pr_merged_at pr with Some s => truthy s | None => false end = true
              <-> exists s, pr_merged_at pr = Some s /\ s <> "").
  { destruct (pr_merged_at pr) as [s|].
    - unfold truthy. rewrite negb_true_iff. split.
      + intros E. exists s. split; [reflexivity|]. now apply String.eqb_neq.
      + intros (s' & [= <-] & Hs). now apply String.eqb_neq.
    - split; [discriminate | intros (s & [=] & _)]. }
  rewrite H. tauto.
Qed.

Lemma page_candidates_app (l1 l2 : list PullRequest) :
  page_candidates w page (l1 ++ l2)
  = page_candidates w page l1 ++ page_candidates w page l2.
Proof.
  unfold page_candidates. now rewrite !filter_app, !map_app, !filter_app, map_app, filter_app.
Qed.

Lemma page_candidates_one (pr : PullRequest) :
  page_candidates w page [pr]
  = if survives w page pr then [to_candidate w page (with_branch_info w page pr)] else [].
Proof.
  unfold page_candidates, survives. cbn [filter].
  destruct (locally_eligible pr); [|reflexivity]. cbn [map filter andb].
  destruct (branch_found (with_branch_info w page pr)); [|reflexivity].
  cbn [map filter andb]. now destruct (old_enough w _).
Qed.

Lemma page_candidates_cons (pr : PullRequest) (l : list PullRequest) :
  page_candidates w page (pr :: l)
  = (if survives w page pr then [to_candidate w page (with_branch_info w page pr)] else [])
    ++ page_candidates w page l.
Proof.
  change (pr :: l) with ([pr] ++ l).
  now rewrite page_candidates_app, page_candidates_one.
Qed.

Lemma page_candidates_In (data : list PullRequest) (c : Candidate) :
  In c (page_candidates w page data) <->
  exists pr, In pr data /\ survives w page pr = true /\
             c = to_candidate w page (with_branch_info w page pr).
Proof.
  induction data as [|pr l IH].
  - split; [intros [] | intros (pr & [] & _)].
  - rewrite page_candidates_cons, in_app_iff, IH. split.
    + intros [H | (pr' & Hin & Hs & Hc)].
      * destruct (survives w page pr) eqn:Hs; [|destruct H].
        destruct H as [<- | []]. exists pr. repeat split; [now left | assumption].
      * exists pr'. repeat split; [now right | assumption | assumption].
    + intros (pr' & [<- | Hin] & Hs & Hc).
      * left. rewrite Hs. now left.
      * right. now exists pr'.
Qed.

Lemma page_events_app (l1 l2 : list PullRequest) :
  not_found_logs (page_events w page (l1 ++ l2))
  = (not_found_logs (page_events w page l1) + not_found_logs (page_events w page l2))%nat.
Proof.
  unfold not_found_logs, page_events.
  rewrite !filter_app, !map_app, !filter_app, !map_app, !filter_app, !length_app.
  lia.
Qed.

End PipelineFacts.

Section PipelineClaims.

Variable w : World.
Variable page : Z.

Lemma not_eligible_dropped (pr : PullRequest) (l1 l2 : list PullRequest) :
  locally_eligible pr = false ->
  page_candidates w page (l1 ++ pr :: l2) = page_candidates w page (l1 ++ l2) /\
  page_events w page (l1 ++ pr :: l2) = page_events w page (l1 ++ l2).
Proof.
  intros H. unfold page_candidates, page_events.
  assert (E : filter locally_eligible (l1 ++ pr :: l2) = filter locally_eligible (l1 ++ l2)).
  { rewrite !filter_app. cbn [filter]. now rewrite H. }
  now rewrite E.
Qed.

(** C4.  A candidate of a page comes from a pull request of that page that
    was merged, whose head branch is not forbidden and whose base branch is
    allowed; a pull request that fails one of the three checks yields no
    candidate, and no lookup, whatever its other fields. *)
Theorem candidates_pass_local_checks (data : list PullRequest) :
  (forall c, In c (page_candidates w page data) ->
     exists pr, In pr data /\
       c = to_candidate w page (with_branch_info w page pr) /\
       pr_merged_at pr <> None /\
       ~ In (pr_head_ref pr) FORBIDDEN_HEAD_REFS /\
       In (pr_base_ref pr) ALLOWED_BASE_REFS) /\
  (forall pr l1 l2,
     data = l1 ++ pr :: l2 ->
     pr_merged_at pr = None \/ In (pr_head_ref pr) FORBIDDEN_HEAD_REFS \/
       ~ In (pr_base_ref pr) ALLOWED_BASE_REFS ->
     page_candidates w page data = page_candidates w page (l1 ++ l2) /\
     page_events w page data = page_events w page (l1 ++ l2)).
Proof.
  split.
  - intros c Hc. apply page_candidates_In in Hc. destruct Hc as (pr & Hin & Hs & ->).
    exists pr. split; [assumption|]. split; [reflexivity|].
    unfold survives in Hs. rewrite !andb_true_iff in Hs. destruct Hs as [[He _] _].
    apply locally_eligible_spec in He. destruct He as ((s & Hm & _) & Hh & Hb).
    repeat split; [congruence | assumption | assumption].
  - intros pr l1 l2 -> Hbad. apply not_eligible_dropped.
    apply not_true_is_false. intros He. apply locally_eligible_spec in He.
    destruct He as ((s & Hm & _) & Hh & Hb).
    destruct Hbad as [H | [H | H]]; [congruence | contradiction | contradiction].
Qed.

Lemma missing_branch_not_found (pr : PullRequest) :
  branch_missing (getBranch w page pr) ->
  branch_found (with_branch_info w page pr) = false.
Proof.
  unfold with_branch_info, branch_found.
  intros [-> | [-> | (bi & -> & Hm)]]; cbn; [reflexivity | reflexivity |].
  now rewrite Hm.
Qed.

(** C7.  When the lookup of a locally eligible pull request is rejected or
    reports that the branch is not found, the record is dropped with one
    "Branch not found" line, the rest of the page yields the candidates it
    would yield without it, and the page loop does not fail on that page. *)
Theorem missing_branch_is_dropped_and_logged (pr : PullRequest)
  (l1 l2 : list PullRequest) (acc : list Candidate) :
  locally_eligible pr = true ->
  branch_missing (getBranch w page pr) ->
  page_candidates w page (l1 ++ pr :: l2) = page_candidates w page (l1 ++ l2) /\
  not_found_logs (page_events w page (l1 ++ pr :: l2))
  = S (not_found_logs (page_events w page (l1 ++ l2))) /\
  (pulls_list w page = ListData (Some (l1 ++ pr :: l2)) ->
   snd (discover w 1 page acc) <> FetchFailed).
Proof.
  intros He Hm. apply missing_branch_not_found in Hm.
  assert (Hs : survives w page pr = false).
  { unfold survives. now rewrite He, Hm. }
  repeat split.
  - rewrite !page_candidates_app, page_candidates_cons, Hs. reflexivity.
  - change (pr :: l2) with ([pr] ++ l2). rewrite !page_events_app.
    assert (H1 : not_found_logs (page_events w page [pr]) = 1%nat).
    { unfold page_events, not_found_logs. cbn [filter]. rewrite He.
      cbn [map filter]. rewrite Hm. reflexivity. }
    rewrite H1. lia.
  - intros Hp. cbn [discover]. rewrite Hp.
    assert (Hn : no_data (Some (l1 ++ pr :: l2)) = false) by now destruct l1.
    rewrite Hn. destruct (_ <=? _)%Z; cbn; discriminate.
Qed.

Lemma page_candidates_heads (data : list PullRequest) :
  map branch_name (page_candidates w page data)
  = map pr_head_ref (filter (survives w page) data).
Proof.
  induction data as [|pr l IH]; [reflexivity|].
  rewrite page_candidates_cons, map_app, IH. cbn [filter].
  destruct (survives w page pr); [|reflexivity].
  cbn [map app to_candidate branch_name]. f_equal.
  unfold with_branch_info. now destruct (getBranch w page pr).
Qed.

End PipelineClaims.

(** C5, as the code has it.  The list is not deduplicated: the branch names
    of the candidates of a page, and of the list accumulated over pages 1
    to [n], are the head branches of the pull requests that pass the
    pipeline, one entry per pull request, in order; the deletion loop calls
    [deleteRef] once for every entry of the list, in order.  A branch is
    listed, and its deletion attempted, as many times as there are
    surviving pull requests with that head. *)
Theorem one_entry_per_surviving_pull_request (w : World) (page : Z)
  (data : list PullRequest) (n : nat) (input : list string) (prs : list Candidate) :
  map branch_name (page_candidates w page data)
  = map pr_head_ref (filter (survives w page) data) /\
  map branch_name (pages_upto w n)
  = flat_map (fun k => map pr_head_ref
                         (filter (survives w (Z.of_nat k)) (page_data w (Z.of_nat k))))
             (seq 1 n) /\
  deleted_refs (fst (after_discovery w "NUKE" ("NUKE" :: input) prs))
  = map branch_name prs.
Proof.
  split; [apply page_candidates_heads|]. split; [|apply confirmed_nuke_refs].
  induction n as [|n IH]; [reflexivity|].
  rewrite seq_S, flat_map_app. cbn [pages_upto flat_map Nat.add].
  now rewrite map_app, IH, page_candidates_heads, app_nil_r.
Qed.

(** C5 as stated fails: two merged pull requests share the head branch
    feature-a; the branch is listed twice and [deleteRef] is called twice
    on it. *)
Lemma shared_head_listed_and_deleted_twice :
  let w := world base_env ["NUKE"; "YES I DO"; "NUKE"] in
  map branch_name (page_candidates w 1 [pr1; pr2]) = ["feature-a"; "feature-a"] /\
  deleted_refs (fst (run w 3)) = ["feature-a"; "feature-a"; "feature-e"] /\
  ~ NoDup (deleted_refs (fst (run w 3))).
Proof.
  cbv zeta. split; [vm_compute; reflexivity|].
  assert (E : deleted_refs (fst (run (world base_env ["NUKE"; "YES I DO"; "NUKE"]) 3))
              = ["feature-a"; "feature-a"; "feature-e"]) by (vm_compute; reflexivity).
  split; [exact E|]. rewrite E. intros H. inversion H as [|x l Hx _]; subst.
  apply Hx. now left.
Qed.

Section AgeBoundary.

Local Open Scope Q_scope.

Lemma time_value_exact (t : Z) : time_value t -> round (inject_Z t) == inject_Z t.
Proof.
  intros H. apply round_id, representable_Z. unfold time_value in H.
  change (2 ^ 53)%Z with 9007199254740992%Z. lia.
Qed.

Lemma elapsed_exact (now t : Z) :
  time_value now -> time_value t ->
  round (inject_Z now) - round (inject_Z t) == inject_Z (now - t).
Proof.
  intros Hn Ht. rewrite (time_value_exact now Hn), (time_value_exact t Ht).
  unfold Zminus. rewrite inject_Z_plus, inject_Z_opp. ring.
Qed.

Lemma threshold_exact (A : Z) : (Z.abs A < 2 ^ 21)%Z -> round (inject_Z A) == inject_Z A.
Proof.
  intros H. apply round_id, representable_Z.
  change (2 ^ 21)%Z with 2097152%Z in H. change (2 ^ 53)%Z with 9007199254740992%Z. lia.
Qed.

Lemma old_at_threshold (now t A : Z) :
  time_value now -> time_value t -> (Z.abs A < 2 ^ 21)%Z ->
  (A * 2592000000 <= now - t)%Z ->
  inject_Z A <= age_of now t.
Proof.
  intros Hn Ht HA Hd. unfold age_of.
  change (2 ^ 21)%Z with 2097152%Z in HA.
  pose proof (elapsed_exact now t Hn Ht) as E.
  set (y0 := round (inject_Z now) - round (inject_Z t)) in *.
  assert (H0 : inject_Z (A * 2592000000) <= round y0).
  { apply round_ge.
    - apply representable_Z. change (2 ^ 53)%Z with 9007199254740992%Z. lia.
    - rewrite E. now rewrite <- Zle_Qle. }
  rewrite inject_Z_mult in H0.
  assert (H1 : inject_Z (A * 2592000) <= round (round y0 / 1000)).
  { apply round_ge.
    - apply representable_Z. change (2 ^ 53)%Z with 9007199254740992%Z. lia.
    - rewrite inject_Z_mult. apply Qle_shift_div_l; [reflexivity|].
      change (inject_Z 2592000000) with (2592000000 # 1) in H0.
      change (inject_Z 2592000) with (2592000 # 1). lra. }
  rewrite inject_Z_mult in H1.
  apply round_ge.
  - apply representable_Z. change (2 ^ 53)%Z with 9007199254740992%Z. lia.
  - apply Qle_shift_div_l; [reflexivity|].
    change (inject_Z 2592000) with (2592000 # 1) in H1. lra.
Qed.

Lemma young_below_threshold (now t A : Z) :
  time_value now -> time_value t -> (Z.abs A < 2 ^ 21)%Z ->
  (now - t < A * 2592000000)%Z ->
  age_of now t < inject_Z A.
Proof.
  intros Hn Ht HA Hd. unfold age_of.
  change (2 ^ 21)%Z with 2097152%Z in HA.
  pose proof (elapsed_exact now t Hn Ht) as E.
  set (y0 := round (inject_Z now) - round (inject_Z t)) in *.
  assert (H0 : round y0 <= inject_Z (A * 2592000000 - 1)).
  { apply round_le.
    - apply representable_Z. change (2 ^ 53)%Z with 9007199254740992%Z. lia.
    - rewrite E. rewrite <- Zle_Qle. lia. }
  unfold Zminus in H0. rewrite inject_Z_plus, inject_Z_mult in H0.
  change (inject_Z 2592000000) with (2592000000 # 1) in H0.
  change (inject_Z (- (1))) with (- (1)) in H0.
  assert (H1 : round (round y0 / 1000) <= inject_Z (A * 2592000 * 1024 - 1) * 2 ^ (-10)).
  { apply round_le.
    - apply representable_dyadic. change (2 ^ 53)%Z with 9007199254740992%Z. lia.
    - apply Qle_shift_div_r; [reflexivity|].
      unfold Zminus. rewrite inject_Z_plus, !inject_Z_mult.
      change (2 ^ (-10)) with (1 # 1024).
      change (inject_Z 2592000) with (2592000 # 1).
      change (inject_Z 1024) with (1024 # 1).
      change (inject_Z (- (1))) with (- (1)). lra. }
  unfold Zminus in H1. rewrite inject_Z_plus, !inject_Z_mult in H1.
  change (2 ^ (-10)) with (1 # 1024) in H1.
  change (inject_Z 2592000) with (2592000 # 1) in H1.
  change (inject_Z 1024) with (1024 # 1) in H1.
  change (inject_Z (- (1))) with (- (1)) in H1.
  assert (H2 : round (round (round y0 / 1000) / 2592000)
               <= inject_Z (A * 4294967296 - 1) * 2 ^ (-32)).
  { apply round_le.
    - apply representable_dyadic. change (2 ^ 53)%Z with 9007199254740992%Z. lia.
    - apply Qle_shift_div_r; [reflexivity|].
      unfold Zminus. rewrite inject_Z_plus, !inject_Z_mult.
      change (2 ^ (-32)) with (1 # 4294967296).
      change (inject_Z 4294967296) with (4294967296 # 1).
      change (inject_Z (- (1))) with (- (1)). lra. }
  unfold Zminus in H2. rewrite inject_Z_plus, !inject_Z_mult in H2.
  change (2 ^ (-32)) with (1 # 4294967296) in H2.
  change (inject_Z 4294967296) with (4294967296 # 1) in H2.
  change (inject_Z (- (1))) with (- (1)) in H2.
  lra.
Qed.

End AgeBoundary.

Section AgeClaim.

Variable w : World.
Variable page : Z.

Lemma exact_months_threshold (now t A : Z) :
  (inject_Z A <= exact_months now t)%Q <-> A * 2592000000 <= now - t.
Proof.
  unfold exact_months. rewrite Zle_Qle, inject_Z_mult.
  change (inject_Z 2592000000) with (2592000000 # 1)%Q.
  split; intros H.
  - apply (Qmult_le_r _ _ 2592000000) in H; [|reflexivity].
    setoid_replace (inject_Z (now - t) / 1000 / 2592000 * 2592000000)%Q
      with (inject_Z (now - t)) in H by (field; discriminate).
    exact H.
  - apply Qle_shift_div_l; [reflexivity|]. apply Qle_shift_div_l; [reflexivity|].
    setoid_replace (inject_Z A * 2592000 * 1000)%Q with (inject_Z A * 2592000000)%Q by ring.
    exact H.
Qed.

Lemma monthsAge_value (pr : PullRequest) (s : string) (t : Z) :
  pr_merged_at pr = Some s -> Date_parse w s = Some t ->
  monthsAge w page pr = Num (age_of (Date_now w page pr) t).
Proof.
  intros Hm Hp. unfold monthsAge, parse_merged_at. rewrite Hm, Hp. reflexivity.
Qed.

Lemma old_enough_iff (pr : PullRequest) (bi : option BranchInfo) (s : string) (t : Z) :
  pr_merged_at pr = Some s -> Date_parse w s = Some t ->
  time_value (Date_now w page pr) -> time_value t ->
  Z.abs (AGE_IN_MONTHS (env w)) < 2 ^ 21 ->
  old_enough w (to_candidate w page (pr, bi)) = true <->
  AGE_IN_MONTHS (env w) * 2592000000 <= Date_now w page pr - t.
Proof.
  intros Hm Hp Hn Ht HA. unfold old_enough. cbn [to_candidate age fst].
  rewrite (monthsAge_value pr s t Hm Hp). cbn [JSNumber.geb JSNumber.of_Z].
  rewrite Qle_bool_iff, (threshold_exact _ HA). split.
  - intros H. destruct (Z_le_gt_dec (AGE_IN_MONTHS (env w) * 2592000000)
                                     (Date_now w page pr - t)) as [Hle | Hgt];
      [assumption|].
    pose proof (young_below_threshold _ _ _ Hn Ht HA ltac:(lia)) as Hy.
    exfalso. apply (Qlt_not_le _ _ Hy H).
  - now apply old_at_threshold.
Qed.

Lemma old_enough_parsed (pr : PullRequest) (bi : option BranchInfo) :
  old_enough w (to_candidate w page (pr, bi)) = true ->
  exists s t, pr_merged_at pr = Some s /\ Date_parse w s = Some t.
Proof.
  unfold old_enough. cbn [to_candidate age fst]. unfold monthsAge, parse_merged_at.
  destruct (pr_merged_at pr) as [s|];
    [|unfold JSNumber.of_Z; cbn [JSNumber.sub JSNumber.div JSNumber.geb]; discriminate].
  destruct (Date_parse w s) as [t|] eqn:Hp;
    [|unfold JSNumber.of_Z; cbn [JSNumber.sub JSNumber.div JSNumber.geb]; discriminate].
  intros _. exists s, t. split; [reflexivity | exact Hp].
Qed.

(** C3.  Every candidate of a page carries the age computed for its pull
    request, and that age is at least AGE_IN_MONTHS; on the exact quotient
    [(now - mergedAt) / 1000 / 2592000] the bound holds as well.  The bound
    is inclusive and sharp: for a merged pull request with an existing
    branch, being listed is the same as the exact quotient being at least
    AGE_IN_MONTHS, so an age equal to the threshold is kept and any younger
    one is dropped.  The statements on the exact quotient are for time
    values in the ECMAScript range and a threshold below 2^21 months, where
    binary64 rounding cannot move the comparison. *)
Theorem candidates_are_old_enough (data : list PullRequest) :
  (forall c, In c (page_candidates w page data) ->
     JSNumber.geb (age c) (JSNumber.of_Z (AGE_IN_MONTHS (env w))) = true /\
     exists pr s t,
       In pr data /\ pr_merged_at pr = Some s /\ Date_parse w s = Some t /\
       age c = monthsAge w page pr /\
       (time_value (Date_now w page pr) -> time_value t ->
        Z.abs (AGE_IN_MONTHS (env w)) < 2 ^ 21 ->
        (inject_Z (AGE_IN_MONTHS (env w)) <= exact_months (Date_now w page pr) t)%Q)) /\
  (forall pr s t,
     In pr data ->
     locally_eligible pr = true ->
     branch_found (with_branch_info w page pr) = true ->
     pr_merged_at pr = Some s -> Date_parse w s = Some t ->
     time_value (Date_now w page pr) -> time_value t ->
     Z.abs (AGE_IN_MONTHS (env w)) < 2 ^ 21 ->
     (In (to_candidate w page (with_branch_info w page pr)) (page_candidates w page data)
      <-> (inject_Z (AGE_IN_MONTHS (env w)) <= exact_months (Date_now w page pr) t)%Q)).
Proof.
  assert (Hx : forall pr,
             with_branch_info w page pr = (pr, snd (with_branch_info w page pr))).
  { intros pr. unfold with_branch_info. now destruct (getBranch w page pr). }
  split.
  - intros c Hc.
    assert (Ho : old_enough w c = true).
    { unfold page_candidates in Hc. apply filter_In in Hc. exact (proj2 Hc). }
    split; [exact Ho|].
    apply page_candidates_In in Hc. destruct Hc as (pr & Hin & _ & ->).
    rewrite Hx in Ho |- *.
    destruct (old_enough_parsed _ _ Ho) as (s & t & Hm & Hp).
    exists pr, s, t. repeat split; try assumption.
    intros Hn Ht HA. rewrite exact_months_threshold.
    exact (proj1 (old_enough_iff pr _ s t Hm Hp Hn Ht HA) Ho).
  - intros pr s t Hin He Hf Hm Hp Hn Ht HA.
    rewrite exact_months_threshold.
    rewrite <- (old_enough_iff pr (snd (with_branch_info w page pr)) s t Hm Hp Hn Ht HA).
    rewrite <- Hx. split.
    + intros Hc. unfold page_candidates in Hc. apply filter_In in Hc. exact (proj2 Hc).
    + intros Ho. apply page_candidates_In. exists pr. split; [assumption|].
      split; [|reflexivity]. unfold survives. now rewrite He, Hf, Ho.
Qed.

End AgeClaim.

Lemma candidates_are_old_enough_witness :
  let w := world base_env [] in
  JSNumber.geb (age (to_candidate w 1 (with_branch_info w 1 pr2))) (JSNumber.of_Z 3) = true /\
  In (to_candidate w 1 (with_branch_info w 1 pr2)) (page_candidates w 1 [pr1; pr2; pr3]) /\
  ~ In (to_candidate w 1 (with_branch_info w 1 pr3)) (page_candidates w 1 [pr1; pr2; pr3]).
Proof.
  intros w.
  destruct (candidates_are_old_enough w 1 [pr1; pr2; pr3]) as [A B].
  assert (Tn : time_value today) by (vm_compute; discriminate).
  assert (T2 : time_value 1706659200000) by (vm_compute; discriminate).
  assert (T3 : time_value 1706659201000) by (vm_compute; discriminate).
  pose proof (B pr2 "2024-01-31T00:00:00Z" 1706659200000
                (or_intror (or_introl eq_refl))) as B2.
  do 4 specialize (B2 eq_refl). specialize (B2 Tn). specialize (B2 T2).
  specialize (B2 eq_refl).
  pose proof (B pr3 "2024-01-31T00:00:01Z" 1706659201000
                (or_intror (or_intror (or_introl eq_refl)))) as B3.
  do 4 specialize (B3 eq_refl). specialize (B3 Tn). specialize (B3 T3).
  specialize (B3 eq_refl).
  assert (H2 : In (to_candidate w 1 (with_branch_info w 1 pr2))
                  (page_candidates w 1 [pr1; pr2; pr3])).
  { apply (proj2 B2). vm_compute. discriminate. }
  split; [exact (proj1 (A _ H2))|]. split; [exact H2|].
  intros H3. apply (proj1 B3) in H3. vm_compute in H3. apply H3. reflexivity.
Defined.

(** ** The paginator, stated on the pages *)

Section Paginator.

Variable w : World.

Lemma listed_pages_of_page (p : Z) (data : list PullRequest) (tail : list Event) :
  listed_pages ([Log (PageProgress p); CallList p (PER_PAGE_COUNT (env w))]
                ++ page_events w p data ++ tail)
  = p :: listed_pages tail.
Proof.
  rewrite !listed_pages_app.
  destruct (page_events_quiet w p data) as (_ & _ & Q). rewrite Q. reflexivity.
Qed.

Lemma discover_step (fuel : nat) (j : nat) :
  discover w (S fuel) (Z.of_nat (S j)) (pages_upto w j) =
  let p := Z.of_nat (S j) in
  let start := [Log (PageProgress p); CallList p (PER_PAGE_COUNT (env w))] in
  match pulls_list w p with
  | ListThrows => (start, FetchFailed)
  | ListData data =>
      if no_data data then (start ++ [Log NoMorePRs], Found (pages_upto w j))
      else if MAX_COUNT (env w) <=? Z.of_nat (List.length (pages_upto w (S j)))
      then (start ++ page_events w p (page_data w p)
                  ++ [Log (MaxReached (MAX_COUNT (env w)))],
            Found (pages_upto w (S j)))
      else (start ++ page_events w p (page_data w p)
                  ++ Log (Processed (List.length (page_candidates w p (page_data w p))))
                  :: fst (discover w fuel (Z.of_nat (S (S j))) (pages_upto w (S j))),
            snd (discover w fuel (Z.of_nat (S (S j))) (pages_upto w (S j))))
  end.
Proof.
  cbn zeta. cbn [discover pages_upto]. unfold page_data.
  destruct (pulls_list w (Z.of_nat (S j))) as [|data]; [reflexivity|].
  destruct (no_data data); [reflexivity|].
  destruct (_ <=? _)%Z; [now rewrite <- app_assoc|].
  replace (Z.of_nat (S j) + 1) with (Z.of_nat (S (S j))) by lia.
  destruct (discover w fuel _ _) as [rest d]. cbn [fst snd].
  now rewrite <- app_assoc.
Qed.

Lemma discover_pages_consecutive (fuel : nat) :
  forall j, exists m,
    (m <= fuel)%nat /\
    listed_pages (fst (discover w fuel (Z.of_nat (S j)) (pages_upto w j)))
    = map Z.of_nat (seq (S j) m).
Proof.
  induction fuel as [|fuel IH]; intros j; [exists 0%nat; now split|].
  rewrite discover_step. cbn zeta.
  destruct (pulls_list w (Z.of_nat (S j))) as [|data];
    [exists 1%nat; split; [lia | reflexivity]|].
  destruct (no_data data); [exists 1%nat; split; [lia | reflexivity]|].
  destruct (_ <=? _)%Z; cbn [fst].
  - exists 1%nat. split; [lia|]. now rewrite listed_pages_of_page.
  - destruct (IH (S j)) as (m & Hm & E). exists (S m). split; [lia|].
    rewrite listed_pages_of_page.
    change (listed_pages (Log ?l :: ?r)) with (listed_pages r).
    rewrite E. reflexivity.
Qed.

Lemma discover_found (fuel : nat) :
  forall j prs,
    snd (discover w fuel (Z.of_nat (S j)) (pages_upto w j)) = Found prs ->
    exists n, (j < n <= j + fuel)%nat /\
      listed_pages (fst (discover w fuel (Z.of_nat (S j)) (pages_upto w j)))
      = map Z.of_nat (seq (S j) (n - j)) /\
      stops_at w j n prs.
Proof.
  induction fuel as [|fuel IH]; intros j prs; [discriminate|].
  rewrite discover_step. cbn zeta.
  destruct (pulls_list w (Z.of_nat (S j))) as [|data] eqn:Hp; [discriminate|].
  destruct (no_data data) eqn:Hn.
  - cbn [fst snd]. intros H. assert (E : prs = pages_upto w j) by congruence.
    subst prs. clear H. exists (S j). split; [lia|].
    replace (S j - j)%nat with 1%nat by lia. split; [reflexivity|].
    split; [intros k Hk; lia|]. left. split; [now exists data|].
    now replace (S j - 1)%nat with j by lia.
  - destruct (Z.leb_spec (MAX_COUNT (env w))
                (Z.of_nat (List.length (pages_upto w (S j))))) as [Hcap | Hcap];
      cbn [fst snd]; intros H.
    + assert (E : prs = pages_upto w (S j)) by congruence.
      subst prs. clear H. exists (S j). split; [lia|].
      replace (S j - j)%nat with 1%nat by lia.
      split; [now rewrite listed_pages_of_page|].
      split; [intros k Hk; lia|]. right. split; [now exists data|]. now split.
    + destruct (IH (S j) prs H) as (n & Hn' & Hl & Hk & Hstop).
      exists n. split; [lia|]. split.
      * rewrite listed_pages_of_page.
        change (listed_pages (Log ?l :: ?r)) with (listed_pages r). rewrite Hl.
        replace (n - j)%nat with (S (n - S j)) by lia. reflexivity.
      * split; [|exact Hstop]. intros k Hjk.
        destruct (Nat.eq_dec k (S j)) as [-> | Hne].
        -- split; [now exists data|]. unfold cap_reached. lia.
        -- apply Hk. lia.
Qed.

Lemma discover_terminates (fuel : nat) :
  forall j n prs,
    (j < n <= j + fuel)%nat -> stops_at w j n prs ->
    snd (discover w fuel (Z.of_nat (S j)) (pages_upto w j)) = Found prs.
Proof.
  induction fuel as [|fuel IH]; intros j n prs Hn [Hk Hstop]; [lia|].
  rewrite discover_step. cbn zeta.
  destruct (Nat.eq_dec n (S j)) as [-> | Hne].
  - destruct Hstop as [((d & Hp & Hd) & ->) | ((d & Hp & Hd) & Hcap & ->)];
      rewrite Hp, Hd.
    + now replace (S j - 1)%nat with j by lia.
    + unfold cap_reached in Hcap. apply Z.leb_le in Hcap. now rewrite Hcap.
  - destruct (Hk (S j) ltac:(lia)) as ((d & Hp & Hd) & Hcap).
    rewrite Hp, Hd. unfold cap_reached in Hcap.
    destruct (Z.leb_spec (MAX_COUNT (env w))
                (Z.of_nat (List.length (pages_upto w (S j))))); [contradiction|].
    cbn [snd]. apply (IH (S j) n prs); [lia|]. split; [|exact Hstop].
    intros k Hjk. apply Hk. lia.
Qed.

(** C6.  The loop asks for pages 1, 2, 3, ... in order, each once.  It is
    left with a list exactly when the page just fetched is empty, or has
    data and brings the list to MAX_COUNT entries; every earlier page had
    data and left the list under the cap.  The list is then made of all the
    candidates of every page processed, the last one included in full, and
    no later page is fetched. *)
Theorem paginator_fetches_in_order_until_empty_or_cap (fuel : nat) :
  (exists m, (m <= fuel)%nat /\
     listed_pages (fst (discover w fuel 1 [])) = map Z.of_nat (seq 1 m)) /\
  (forall prs,
     snd (discover w fuel 1 []) = Found prs ->
     exists n, (1 <= n <= fuel)%nat /\
       listed_pages (fst (discover w fuel 1 [])) = map Z.of_nat (seq 1 n) /\
       stops_at w 0 n prs) /\
  (forall n prs,
     (1 <= n <= fuel)%nat -> stops_at w 0 n prs ->
     snd (discover w fuel 1 []) = Found prs).
Proof.
  change 1 with (Z.of_nat 1). change (@nil Candidate) with (pages_upto w 0).
  split; [apply discover_pages_consecutive|]. split.
  - intros prs H. destruct (discover_found fuel 0 prs H) as (n & Hn & Hl & Hs).
    exists n. rewrite Nat.sub_0_r in Hl. split; [lia|]. now split.
  - intros n prs Hn Hs. apply (discover_terminates fuel 0 n prs); [lia | exact Hs].
Qed.

End Paginator.

Lemma paginator_fetches_in_order_until_empty_or_cap_witness :
  let w := world capped_env [] in
  snd (discover w 5 1 []) = Found (pages_upto w 1) /\
  List.length (pages_upto w 1) = 2%nat /\
  MAX_COUNT (env w) = 1.
Proof.
  intros w. split; [|split; reflexivity].
  apply (proj2 (proj2 (paginator_fetches_in_order_until_empty_or_cap w 5)) 1%nat);
    [lia|].
  split; [intros k Hk; lia|]. right.
  split; [exists (Some [pr1; pr2; pr3; pr4; pr5; pr6; pr7]); now split|].
  split; [|reflexivity]. unfold cap_reached. vm_compute. discriminate.
Defined.

Lemma candidates_pass_local_checks_witness :
  let w := world base_env [] in
  (exists pr, In pr [pr1; pr4; pr5; pr6] /\
     to_candidate w 1 (with_branch_info w 1 pr1)
     = to_candidate w 1 (with_branch_info w 1 pr) /\
     pr_merged_at pr <> None /\
     ~ In (pr_head_ref pr) FORBIDDEN_HEAD_REFS /\
     In (pr_base_ref pr) ALLOWED_BASE_REFS) /\
  page_candidates w 1 [pr1; pr4; pr5; pr6] = page_candidates w 1 ([pr1] ++ [pr5; pr6]) /\
  page_events w 1 [pr1; pr4; pr5; pr6] = page_events w 1 ([pr1] ++ [pr5; pr6]).
Proof.
  intros w.
  destruct (candidates_pass_local_checks w 1 [pr1; pr4; pr5; pr6]) as [A B].
  split.
  - apply A. vm_compute. left. reflexivity.
  - apply (B pr4 [pr1] [pr5; pr6]); [reflexivity|].
    right. left. right. left. reflexivity.
Defined.

Lemma missing_branch_is_dropped_and_logged_witness :
  let w := world base_env [] in
  page_candidates w 1 ([pr1] ++ pr7 :: [pr2]) = page_candidates w 1 ([pr1] ++ [pr2]) /\
  not_found_logs (page_events w 1 ([pr1] ++ pr7 :: [pr2]))
  = S (not_found_logs (page_events w 1 ([pr1] ++ [pr2]))) /\
  (pulls_list w 1 = ListData (Some ([pr1] ++ pr7 :: [pr2])) ->
   snd (discover w 1 1 []) <> FetchFailed).
Proof.
  intros w.
  apply (missing_branch_is_dropped_and_logged w 1 pr7 [pr1] [pr2] []);
    [reflexivity | left; reflexivity].
Defined.

(** ** Configuration *)

Lemma or_default_falsy (n : option Z) (d : Z) :
  n = None \/ n = Some 0 -> or_default n d = d.
Proof. intros [-> | ->]; reflexivity. Qed.

Lemma or_default_nonzero (n : option Z) (d : Z) : d <> 0 -> or_default n d <> 0.
Proof. intros Hd. destruct n as [[|p|p]|]; cbn; congruence. Qed.

(** C10.  When AGE_IN_MONTHS, MAX_COUNT or PER_PAGE_COUNT is set to a string
    that [parseInt] reads as 0 or cannot read, the run uses the default (3,
    100, 30) instead; none of the three settings can be zero. *)
Theorem zero_or_unreadable_setting_uses_default (e : string -> option string)
  (s : string) :
  parseInt s = None \/ parseInt s = Some 0 ->
  (e "AGE_IN_MONTHS" = Some s -> AGE_IN_MONTHS e = 3) /\
  (e "MAX_COUNT" = Some s -> MAX_COUNT e = 100) /\
  (e "PER_PAGE_COUNT" = Some s -> PER_PAGE_COUNT e = 30) /\
  AGE_IN_MONTHS e <> 0 /\ MAX_COUNT e <> 0 /\ PER_PAGE_COUNT e <> 0.
Proof.
  intros Hs. unfold AGE_IN_MONTHS, MAX_COUNT, PER_PAGE_COUNT, env_int.
  repeat split; try (intros ->; now apply or_default_falsy);
    now apply or_default_nonzero.
Qed.

Lemma zero_or_unreadable_setting_uses_default_witness :
  let e := fun name : string =>
             if (name =? "AGE_IN_MONTHS")%string then Some "0 months" else base_env name in
  (parseInt "0 months" = None \/ parseInt "0 months" = Some 0) /\
  AGE_IN_MONTHS e = 3.
Proof.
  intros e.
  assert (H : parseInt "0 months" = None \/ parseInt "0 months" = Some 0)
    by (right; reflexivity).
  split; [exact H|].
  apply (zero_or_unreadable_setting_uses_default e "0 months" H). reflexivity.
Defined.

(** [parseInt] on a few settings. *)
Example parseInt_samples :
  parseInt "12" = Some 12 /\ parseInt "  -7px" = Some (-7) /\
  parseInt "abc" = None /\ parseInt "" = None /\ parseInt "0x10" = Some 0 /\
  parseInt "-0" = Some 0 /\ parseInt "undefined" = None /\
  MAX_COUNT capped_env = 1 /\ PER_PAGE_COUNT base_env = 30.
Proof. repeat split. Qed.

(** * Further properties of the script *)

(** ** The shape of a run *)

Lemma Forall_flat_map_nil {A B : Type} (P : A -> Prop) (f : A -> list B) (l : list A) :
  (forall x, P x -> f x = []) -> Forall P l -> flat_map f l = [].
Proof.
  intros Hf H. induction H as [|x l Hx _ IH]; [reflexivity|].
  cbn [flat_map]. now rewrite (Hf x Hx), IH.
Qed.

Lemma page_events_discovery (w : World) (page : Z) (data : list PullRequest) :
  Forall discovery_event (page_events w page data).
Proof.
  unfold page_events. apply Forall_app. split; apply Forall_forall;
    intros e He; apply in_map_iff in He; destruct He as (x & <- & _); exact I.
Qed.

Lemma discover_events (w : World) (fuel : nat) :
  forall page acc, Forall discovery_event (fst (discover w fuel page acc)).
Proof.
  induction fuel as [|fuel IH]; intros page acc; cbn [discover fst]; [constructor|].
  destruct (pulls_list w page) as [|data]; [repeat constructor|].
  destruct (no_data data); [repeat constructor|].
  pose proof (page_events_discovery w page (data_list data)) as Hp.
  destruct (_ <=? _).
  - cbn [fst]. rewrite !Forall_app. repeat split; try assumption; repeat constructor.
  - specialize (IH (page + 1) (acc ++ page_candidates w page (data_list data))).
    destruct (discover w fuel _ _) as [rest d]. cbn [fst] in *.
    rewrite !Forall_app. repeat split; try assumption; repeat constructor. exact IH.
Qed.

Lemma discover_asks_nothing (w : World) (fuel : nat) (page : Z) (acc : list Candidate) :
  questions (fst (discover w fuel page acc)) = [] /\
  closes (fst (discover w fuel page acc)) = 0%nat.
Proof.
  pose proof (discover_events w fuel page acc) as H. unfold questions, closes. split.
  - apply (Forall_flat_map_nil discovery_event); [|exact H]. now intros [].
  - rewrite (Forall_flat_map_nil discovery_event); [reflexivity| |exact H]. now intros [].
Qed.

(** The six ways a run can go, up to the page loop. *)
Lemma run_cases (w : World) (fuel : nat) :
  (allRequiredVarsPresent (env w) = false /\
   run w fuel = ([Log MissingEnv], Exited 1)) \/
  (allRequiredVarsPresent (env w) = true /\ stdin w = [] /\
   run w fuel = ([Question AskMode], AwaitingInput)) \/
  (allRequiredVarsPresent (env w) = true /\
   exists typed input, stdin w = typed :: input /\
     includes ["DRYRUN"; "NUKE"] (chosen_mode typed) = false /\
     run w fuel = ([Question AskMode; Log UnsupportedMode; Close], Exited 1)) \/
  (allRequiredVarsPresent (env w) = true /\
   exists typed, stdin w = [typed] /\
     includes ["DRYRUN"; "NUKE"] (chosen_mode typed) = true /\
     run w fuel = ([Question AskMode; Log (ModeSelected (chosen_mode typed));
                    Question (AskRun (chosen_mode typed))], AwaitingInput)) \/
  (allRequiredVarsPresent (env w) = true /\
   exists answer input, stdin w = "NUKE" :: answer :: input /\
     answer <> "YES I DO" /\
     run w fuel = ([Question AskMode; Log (ModeSelected "NUKE");
                    Question (AskRun "NUKE"); Log BranchesSafe; Close], Exited 1)) \/
  (exists mode input, starts_discovery w mode input).
Proof.
  unfold run. destruct (allRequiredVarsPresent (env w)) eqn:Henv; cbn [negb];
    [|left; now split].
  right. destruct (stdin w) as [|typed input] eqn:Hin; [left; now repeat split|].
  right. unfold on_mode. fold (chosen_mode typed).
  destruct (includes ["DRYRUN"; "NUKE"] (chosen_mode typed)) eqn:Hok; cbn [negb];
    [|left; split; [reflexivity|]; exists typed, input; now repeat split].
  right. destruct input as [|answer input];
    [left; split; [reflexivity|]; exists typed; now repeat split|].
  right. unfold on_answer.
  destruct (String.eqb_spec (chosen_mode typed) "NUKE") as [Hm | Hm];
    [destruct (String.eqb_spec answer "YES I DO") as [Ha | Ha]|]; cbn [andb negb].
  - right. exists (chosen_mode typed), input. split; [assumption|].
    exists typed, answer. repeat split; try assumption. now intros _.
  - left. split; [reflexivity|]. exists answer, input. rewrite Hm.
    assert (Ht : typed = "NUKE").
    { unfold chosen_mode in Hm. destruct (truthy typed); [assumption | discriminate]. }
    rewrite Ht. now repeat split.
  - right. exists (chosen_mode typed), input. split; [assumption|].
    exists typed, answer. repeat split; try assumption. intros E. contradiction.
Qed.

Lemma required_vars_missing (e : string -> option string) :
  allRequiredVarsPresent e = false <->
  exists v, In v requiredEnvVars /\ (e v = None \/ e v = Some "").
Proof.
  unfold allRequiredVarsPresent. split.
  - intros H. apply not_true_iff_false in H. rewrite forallb_forall in H.
    destruct (Exists_dec (fun v => e v = None \/ e v = Some "") requiredEnvVars) as [Hex | Hno].
    + intros v. destruct (e v) as [s|]; [|now left; left].
      destruct (string_dec s "") as [-> | Hs]; [left; now right|].
      right. intros [[=] | [= E]]. contradiction.
    + apply Exists_exists in Hex. exact Hex.
    + exfalso. apply H. intros v Hv. destruct (e v) as [s|] eqn:Hev.
      * unfold truthy. apply negb_true_iff, String.eqb_neq. intros ->.
        apply Hno, Exists_exists. exists v. split; [assumption | now right].
      * exfalso. apply Hno, Exists_exists. exists v. split; [assumption | now left].
  - intros (v & Hv & Hm). apply not_true_iff_false. rewrite forallb_forall.
    intros H. specialize (H v Hv). destruct Hm as [Hm | Hm]; rewrite Hm in H; discriminate.
Qed.

(** X1.  Lines 7-13: when OWNER, REPO or GITHUB_TOKEN is unset or empty, and
    only then, the run is one log line and exit code 1 (no prompt, no call). *)
Theorem missing_configuration_stops_at_once (w : World) (fuel : nat) :
  (exists v, In v requiredEnvVars /\ (env w v = None \/ env w v = Some "")) <->
  run w fuel = ([Log MissingEnv], Exited 1).
Proof.
  rewrite <- required_vars_missing. split.
  - intros H. unfold run. now rewrite H.
  - intros H. destruct (allRequiredVarsPresent (env w)) eqn:Henv; [|reflexivity].
    unfold run in H. rewrite Henv in H. cbn [negb] in H.
    destruct (stdin w) as [|typed input]; [discriminate|].
    destruct (on_mode w fuel typed input). discriminate.
Qed.






Lemma questions_app (a b : list Event) : questions (a ++ b) = questions a ++ questions b.
Proof. apply flat_map_app. Qed.

Lemma closes_app (a b : list Event) : closes (a ++ b) = (closes a + closes b)%nat.
Proof. unfold closes. now rewrite flat_map_app, length_app. Qed.

Lemma looked_up_app (a b : list Event) : looked_up (a ++ b) = looked_up a ++ looked_up b.
Proof. apply flat_map_app. Qed.

Lemma age_reports_app (a b : list Event) :
  age_reports (a ++ b) = age_reports a ++ age_reports b.
Proof. apply flat_map_app. Qed.

Lemma delete_loop_asks_nothing (w : World) (prs : list Candidate) :
  forall i, questions (delete_loop w i prs) = [] /\ closes (delete_loop w i prs) = 0%nat.
Proof.
  induction prs as [|c prs IH]; intros i; [now split|].
  destruct (IH (S i)) as [Q C]. cbn [delete_loop].
  rewrite questions_app, closes_app, Q, C.
  now destruct (deleteRef w i (branch_name c)).
Qed.

Lemma dry_run_report_asks_nothing (prs : list Candidate) :
  questions (dry_run_report prs) = [] /\ closes (dry_run_report prs) = 0%nat /\
  age_reports (dry_run_report prs) = map (fun c => (number c, age c)) prs.
Proof.
  unfold dry_run_report.
  change (questions (Log JustLogging :: ?l)) with (questions l).
  change (closes (Log JustLogging :: ?l)) with (closes l).
  change (age_reports (Log JustLogging :: ?l)) with (age_reports l).
  induction prs as [|c prs (Q & C & A)]; [now repeat split|].
  cbn [flat_map].
  change (questions ([Log ?a; Log ?b] ++ ?l)) with (questions l).
  change (closes ([Log ?a; Log ?b] ++ ?l)) with (closes l).
  change (age_reports ([Log ?a; Log (AgeReport ?n ?g)] ++ ?l))
    with ((n, g) :: age_reports l).
  cbn [map]. now rewrite Q, C, A.
Qed.

(** The discovery does not read the typed lines. *)
Lemma discover_with_stdin (w : World) (input : list string) (fuel : nat) :
  forall page acc, discover (with_stdin w input) fuel page acc = discover w fuel page acc.
Proof.
  induction fuel as [|fuel IH]; intros page acc; [reflexivity|].
  cbn [discover]. change (pulls_list (with_stdin w input)) with (pulls_list w).
  change (env (with_stdin w input)) with (env w).
  destruct (pulls_list w page) as [|data]; [reflexivity|].
  destruct (no_data data); [reflexivity|].
  change (page_candidates (with_stdin w input)) with (page_candidates w).
  change (page_events (with_stdin w input)) with (page_events w).
  destruct (_ <=? _); [reflexivity|]. now rewrite IH.
Qed.

Lemma delete_loop_with_stdin (w : World) (input : list string) (prs : list Candidate) :
  forall i, delete_loop (with_stdin w input) i prs = delete_loop w i prs.
Proof. induction prs as [|c prs IH]; intros i; [reflexivity|]. cbn. now rewrite IH. Qed.

Lemma run_with_stdin (w : World) (fuel : nat) (typed : string) (input : list string) :
  run (with_stdin w (typed :: input)) fuel =
  if negb (allRequiredVarsPresent (env w)) then ([Log MissingEnv], Exited 1)
  else (Question AskMode :: fst (on_mode w fuel typed input),
        snd (on_mode w fuel typed input)).
Proof.
  unfold run. change (env (with_stdin w (typed :: input))) with (env w).
  destruct (allRequiredVarsPresent (env w)); [|reflexivity]. cbn [negb stdin with_stdin].
  assert (E : on_mode (with_stdin w (typed :: input)) fuel typed input
              = on_mode w fuel typed input).
  { unfold on_mode. destruct (negb _); [reflexivity|].
    destruct input as [|answer rest]; [reflexivity|].
    unfold on_answer. destruct (_ && _); [reflexivity|].
    rewrite discover_with_stdin. destruct (discover w fuel 1 []) as [evs [prs | |]];
      try reflexivity.
    unfold after_discovery. now rewrite delete_loop_with_stdin. }
  rewrite E. now destruct (on_mode w fuel typed input).
Qed.

(** X4.  Lines 57-66 and 187-194: in a dry run (nothing or DRYRUN typed at
    the first prompt) the run is the same whatever is typed at the second
    prompt and after it. *)
Theorem dry_run_ignores_what_is_typed_next (w : World) (fuel : nat)
  (typed a1 a2 : string) (r1 r2 : list string) :
  typed = "" \/ typed = "DRYRUN" ->
  run (with_stdin w (typed :: a1 :: r1)) fuel
  = run (with_stdin w (typed :: a2 :: r2)) fuel.
Proof.
  intros Ht. rewrite !run_with_stdin.
  destruct (negb (allRequiredVarsPresent (env w))); [reflexivity|].
  assert (E : on_mode w fuel typed (a1 :: r1) = on_mode w fuel typed (a2 :: r2)).
  { destruct Ht as [-> | ->]; unfold on_mode, on_answer, after_discovery; cbn;
      destruct (discover w fuel 1 []) as [evs [prs | |]]; reflexivity. }
  now rewrite E.
Qed.

Lemma dry_run_ignores_what_is_typed_next_witness :
  run (with_stdin (world base_env []) ["DRYRUN"; "YES I DO"; "NUKE"]) 3
  = run (with_stdin (world base_env []) ["DRYRUN"; ""]) 3.
Proof.
  apply (dry_run_ignores_what_is_typed_next (world base_env []) 3 "DRYRUN"
           "YES I DO" "" ["NUKE"] []).
  right. reflexivity.
Defined.

(** X5.  Lines 187-194: a dry run whose page loop ends with the list [prs]
    completes (exit code 0) after two prompts only; it writes [prs], calls
    [deleteRef] for none of them, closes the prompt once, and reports the
    number and the age of every record of [prs], in order. *)
Theorem dry_run_reports_and_completes (w : World) (fuel : nat)
  (typed answer : string) (input : list string) (prs : list Candidate) :
  allRequiredVarsPresent (env w) = true ->
  stdin w = typed :: answer :: input ->
  typed = "" \/ typed = "DRYRUN" ->
  snd (discover w fuel 1 []) = Found prs ->
  snd (run w fuel) = Completed /\
  questions (fst (run w fuel)) = [AskMode; AskRun "DRYRUN"] /\
  written (fst (run w fuel)) = [prs] /\
  deleted_refs (fst (run w fuel)) = [] /\
  closes (fst (run w fuel)) = 1%nat /\
  age_reports (fst (run w fuel)) = map (fun c => (number c, age c)) prs.
Proof.
  intros Henv Hin Ht Hd.
  assert (Hs : starts_discovery w "DRYRUN" input).
  { split; [assumption|]. exists typed, answer.
    destruct Ht as [-> | ->]; repeat split; try assumption; discriminate. }
  rewrite (run_after_gates w fuel _ _ Hs).
  destruct (discover_no_side_effect w fuel 1 []) as [D W].
  destruct (discover_asks_nothing w fuel 1 []) as [Q C].
  pose proof (discover_events w fuel 1 []) as Hev.
  destruct (discover w fuel 1 []) as [evs d]. cbn [fst snd] in *. subst d.
  destruct (dry_run_report_quiet prs) as (RD & RW & _).
  destruct (dry_run_report_asks_nothing prs) as (RQ & RC & RA).
  assert (A : age_reports evs = []).
  { apply (Forall_flat_map_nil discovery_event); [|exact Hev]. now intros [[]| | | | | |]. }
  unfold after_discovery. cbn [String.eqb Ascii.eqb Bool.eqb fst snd].
  split; [reflexivity|].
  rewrite !questions_app, !written_app, !deleted_refs_app, !closes_app, !age_reports_app.
  rewrite Q, W, D, C, A, RQ, RW, RD, RC, RA. cbn. rewrite app_nil_r. now repeat split.
Qed.

Lemma dry_run_reports_and_completes_witness :
  let w := world base_env [""; ""] in
  snd (run w 3) = Completed /\
  questions (fst (run w 3)) = [AskMode; AskRun "DRYRUN"] /\
  written (fst (run w 3)) = [pages_upto w 2] /\
  deleted_refs (fst (run w 3)) = [] /\
  closes (fst (run w 3)) = 1%nat /\
  age_reports (fst (run w 3)) = map (fun c => (number c, age c)) (pages_upto w 2).
Proof.
  intros w.
  apply (dry_run_reports_and_completes w 3 "" "" [] (pages_upto w 2));
    [reflexivity | reflexivity | now left | vm_compute; reflexivity].
Defined.

(** What comes after the page loop, by cases (lines 159-194). *)
Lemma after_discovery_cases (w : World) (mode : string) (input : list string)
  (prs : list Candidate) :
  let stored := [WriteFile result_path prs; Log (GotMerged (List.length prs))] in
  (mode <> "NUKE" /\
   after_discovery w mode input prs = (stored ++ dry_run_report prs ++ [Close], Completed)) \/
  (mode = "NUKE" /\ input = [] /\
   after_discovery w mode input prs = (stored ++ [Question AskNuke], AwaitingInput)) \/
  (mode = "NUKE" /\ (exists confirm rest, input = confirm :: rest /\ confirm <> "NUKE") /\
   after_discovery w mode input prs
   = (stored ++ [Question AskNuke; Close; Log Exiting], Exited 0)) \/
  (mode = "NUKE" /\ (exists rest, input = "NUKE" :: rest) /\
   after_discovery w mode input prs
   = (stored ++ Question AskNuke :: delete_loop w 0 prs ++ [Close], Completed)).
Proof.
  cbn zeta. unfold after_discovery.
  destruct (String.eqb_spec mode "NUKE") as [Hm | Hm]; [|left; now split].
  right. destruct input as [|confirm rest]; [left; now repeat split|].
  right. destruct (String.eqb_spec confirm "NUKE") as [-> | Hc]; cbn [negb].
  - right. repeat split; [assumption | now exists rest].
  - left. repeat split; [assumption | now exists confirm, rest].
Qed.

Lemma after_discovery_summary (w : World) (mode : string) (input : list string)
  (prs : list Candidate) :
  let r := after_discovery w mode input prs in
  written (fst r) = [prs] /\
  (deleted_refs (fst r) = [] \/ deleted_refs (fst r) = map branch_name prs) /\
  (questions (fst r) = [] /\ mode <> "NUKE" \/
   questions (fst r) = [AskNuke] /\ mode = "NUKE") /\
  closes (fst r) = match snd r with Completed | Exited _ => 1%nat | _ => 0%nat end.
Proof.
  cbn zeta.
  destruct (dry_run_report_quiet prs) as (RD & RW & _).
  destruct (dry_run_report_asks_nothing prs) as (RQ & RC & _).
  destruct (delete_loop_asks_nothing w prs 0) as [LQ LC].
  pose proof (delete_loop_writes_nothing w prs 0) as LW.
  pose proof (delete_loop_refs w prs 0) as LD.
  destruct (after_discovery_cases w mode input prs)
    as [[Hm ->] | [(Hm & _ & ->) | [(Hm & _ & ->) | (Hm & _ & ->)]]]; cbn [fst snd].
  - rewrite !written_app, !deleted_refs_app, !questions_app, !closes_app.
    rewrite RW, RD, RQ, RC. repeat split; auto.
  - repeat split; auto.
  - repeat split; auto.
  - change (?s ++ Question AskNuke :: ?l) with (s ++ [Question AskNuke] ++ l).
    rewrite !written_app, !deleted_refs_app, !questions_app, !closes_app.
    rewrite LW, LD, LQ, LC. cbn. rewrite app_nil_r. repeat split; auto.
Qed.

(** Everything a run shows, in terms of the page loop. *)
Lemma run_summary (w : World) (fuel : nat) :
  let evs := fst (run w fuel) in
  (written evs = [] /\ deleted_refs evs = [] /\
   (snd (run w fuel) = Completed -> False) /\
   (questions evs = [] \/ questions evs = [AskMode] \/
    exists m, (m = "DRYRUN" \/ m = "NUKE") /\ questions evs = [AskMode; AskRun m])) \/
  (exists prs, snd (discover w fuel 1 []) = Found prs /\
     written evs = [prs] /\
     (deleted_refs evs = [] \/ deleted_refs evs = map branch_name prs) /\
     (questions evs = [AskMode; AskRun "NUKE"; AskNuke] \/
      questions evs = [AskMode; AskRun "DRYRUN"])).
Proof.
  cbn zeta.
  destruct (run_cases w fuel)
    as [[_ E] | [(_ & _ & E) | [(_ & typed & input & _ & _ & E)
       | [(_ & typed & _ & Hok & E) | [(_ & answer & input & _ & _ & E)
       | (mode & input & Hs)]]]]]; try rewrite E; cbn [fst snd].
  - left. repeat split; try discriminate. now left.
  - left. repeat split; try discriminate. right. now left.
  - left. repeat split; try discriminate. right. now left.
  - left. repeat split; try discriminate. right. right. exists (chosen_mode typed).
    split; [|reflexivity]. apply includes_In in Hok. cbn in Hok. intuition.
  - left. repeat split; try discriminate. right. right. exists "NUKE". split; [now right | reflexivity].
  - assert (Hmode : mode = "DRYRUN" \/ mode = "NUKE").
    { destruct Hs as (_ & typed & answer & _ & _ & Hok & _).
      apply includes_In in Hok. cbn in Hok. intuition. }
    rewrite (run_after_gates w fuel mode input Hs).
    destruct (discover_no_side_effect w fuel 1 []) as [D W].
    destruct (discover_asks_nothing w fuel 1 []) as [Q _].
    destruct (discover w fuel 1 []) as [evs [prs | |]]; cbn [fst snd] in *.
    + right. exists prs. split; [reflexivity|].
      destruct (after_discovery_summary w mode input prs) as (AW & AD & AQ & _).
      rewrite !written_app, !deleted_refs_app, !questions_app, W, D, Q, AW.
      cbn [written deleted_refs questions flat_map app].
      split; [reflexivity|]. split; [exact AD|].
      destruct AQ as [[-> Hm] | [-> Hm]].
      * right. destruct Hmode as [-> | ->]; [reflexivity | contradiction].
      * left. now rewrite Hm.
    + left. rewrite written_app, deleted_refs_app, questions_app, W, D, Q.
      repeat split; try discriminate. right. right. now exists mode.
    + left. rewrite written_app, deleted_refs_app, questions_app, W, D, Q.
      repeat split; try discriminate. right. right. now exists mode.
Qed.

(** X6.  The prompts come in a fixed order, at most three of them; the last
    one (line 166) is shown only in NUKE mode and only once the list is
    written to the file. *)
Theorem prompts_come_in_order (w : World) (fuel : nat) :
  let q := questions (fst (run w fuel)) in
  q = [] \/ q = [AskMode] \/
  (exists m, (m = "DRYRUN" \/ m = "NUKE") /\ q = [AskMode; AskRun m]) \/
  (q = [AskMode; AskRun "NUKE"; AskNuke] /\
   exists prs, written (fst (run w fuel)) = [prs]).
Proof.
  cbn zeta. destruct (run_summary w fuel) as [(_ & _ & _ & Q) | (prs & _ & W & _ & Q)].
  - tauto.
  - destruct Q as [Q | Q]; rewrite Q.
    + right. right. right. split; [reflexivity | now exists prs].
    + right. right. left. exists "DRYRUN". split; [now left | reflexivity].
Qed.

(** X7.  The file is the record of what is deleted: in every run, either
    [deleteRef] is not called, or the list was written to the file once and
    the refs handed to [deleteRef] are the branch names of that list, all of
    them, in order. *)
Theorem deletions_are_the_written_list (w : World) (fuel : nat) :
  deleted_refs (fst (run w fuel)) = [] \/
  exists prs, written (fst (run w fuel)) = [prs] /\
              deleted_refs (fst (run w fuel)) = map branch_name prs.
Proof.
  destruct (run_summary w fuel) as [(_ & D & _) | (prs & _ & W & [D | D] & _)].
  - now left.
  - now left.
  - right. now exists prs.
Qed.

(** X8.  [rl.close()] is called exactly once in every run that completes or
    leaves through [process.exit] after the first prompt, and not at all
    when configuration is missing, when [pulls.list] is rejected, or while
    the run waits or still pages. *)
Theorem prompt_is_closed_once (w : World) (fuel : nat) :
  closes (fst (run w fuel)) =
  match snd (run w fuel) with
  | Completed => 1%nat
  | Exited _ => if allRequiredVarsPresent (env w) then 1%nat else 0%nat
  | Rejected | AwaitingInput | OutOfFuel => 0%nat
  end.
Proof.
  destruct (run_cases w fuel)
    as [[Henv E] | [(Henv & _ & E) | [(Henv & typed & input & _ & _ & E)
       | [(Henv & typed & _ & Hok & E) | [(Henv & answer & input & _ & _ & E)
       | (mode & input & Hs)]]]]]; try (rewrite E, Henv; reflexivity).
  rewrite (run_after_gates w fuel mode input Hs). destruct Hs as [Henv _].
  destruct (discover_asks_nothing w fuel 1 []) as [_ C].
  destruct (discover w fuel 1 []) as [evs [prs | |]]; cbn [fst snd] in *.
  - destruct (after_discovery_summary w mode input prs) as (_ & _ & _ & AC).
    rewrite !closes_app, C, AC, Henv.
    now destruct (snd (after_discovery w mode input prs)).
  - now rewrite closes_app, C.
  - now rewrite closes_app, C.
Qed.

(** ** What the list holds *)

Lemma page_candidates_passed (w : World) (page : Z) (data : list PullRequest) :
  Forall (passed_all_filters w) (page_candidates w page data).
Proof.
  apply Forall_forall. intros c Hc.
  assert (Ho : old_enough w c = true).
  { unfold page_candidates in Hc. apply filter_In in Hc. exact (proj2 Hc). }
  apply page_candidates_In in Hc. destruct Hc as (pr & _ & Hs & ->).
  unfold survives in Hs. rewrite !andb_true_iff in Hs. destruct Hs as [[He _] _].
  apply locally_eligible_spec in He. destruct He as (Hm & Hh & Hb).
  assert (Hx : fst (with_branch_info w page pr) = pr).
  { unfold with_branch_info. now destruct (getBranch w page pr). }
  unfold passed_all_filters. cbn [to_candidate merged_at branch_name base_branch_name].
  rewrite Hx. now repeat split.
Qed.

Lemma discover_keeps (w : World) (P : Candidate -> Prop) (fuel : nat) :
  (forall page data, Forall P (page_candidates w page data)) ->
  forall page acc prs,
    Forall P acc -> snd (discover w fuel page acc) = Found prs -> Forall P prs.
Proof.
  intros HP. induction fuel as [|fuel IH]; intros page acc prs Hacc; [discriminate|].
  cbn [discover]. destruct (pulls_list w page) as [|data]; [discriminate|].
  destruct (no_data data); [cbn [snd]; congruence|].
  assert (Hacc' : Forall P (acc ++ page_candidates w page (data_list data))).
  { apply Forall_app. split; [assumption | apply HP]. }
  destruct (_ <=? _); [cbn [snd]; congruence|].
  specialize (IH (page + 1) _ prs Hacc').
  destruct (discover w fuel (page + 1) _) as [rest d]. exact IH.
Qed.

(** X9.  Whatever the pages hold and wherever the loop stops, every record
    of the list it returns was merged, has a head branch other than master
    and staging, has master as base branch, and has an age of at least
    AGE_IN_MONTHS. *)
Theorem listed_records_passed_every_filter (w : World) (fuel : nat)
  (prs : list Candidate) :
  snd (discover w fuel 1 []) = Found prs -> Forall (passed_all_filters w) prs.
Proof.
  apply (discover_keeps w (passed_all_filters w) fuel (page_candidates_passed w)).
  constructor.
Qed.

Lemma listed_records_passed_every_filter_witness :
  let w := world base_env [] in
  Forall (passed_all_filters w) (pages_upto w 2).
Proof.
  intros w. apply (listed_records_passed_every_filter w 3). vm_compute. reflexivity.
Defined.

Lemma page_events_looked_up (w : World) (page : Z) (data : list PullRequest) :
  looked_up (page_events w page data) = map pr_head_ref (filter locally_eligible data).
Proof.
  unfold page_events. rewrite looked_up_app.
  set (l := filter locally_eligible data).
  assert (E2 : forall (x : list (PullRequest * option BranchInfo)),
             looked_up (map (fun _ => Log BranchNotFound) x) = []).
  { intros x. induction x; [reflexivity | assumption]. }
  rewrite E2, app_nil_r. induction l as [|pr l IH]; [reflexivity|].
  cbn [map]. change (looked_up (CallGetBranch ?b :: ?r)) with (b :: looked_up r).
  now rewrite IH.
Qed.

Lemma discover_looked_up (w : World) (fuel : nat) :
  forall page acc b,
    In b (looked_up (fst (discover w fuel page acc))) -> ~ In b FORBIDDEN_HEAD_REFS.
Proof.
  induction fuel as [|fuel IH]; intros page acc b; [intros []|].
  cbn [discover]. destruct (pulls_list w page) as [|data]; [intros []|].
  destruct (no_data data); [intros []|].
  assert (Hp : In b (looked_up (page_events w page (data_list data))) ->
               ~ In b FORBIDDEN_HEAD_REFS).
  { rewrite page_events_looked_up. intros H. apply in_map_iff in H.
    destruct H as (pr & <- & Hpr). apply filter_In in Hpr.
    destruct Hpr as [_ Hpr]. apply locally_eligible_spec in Hpr. tauto. }
  destruct (_ <=? _).
  - cbn [fst]. rewrite !looked_up_app, !in_app_iff.
    change (looked_up [Log ?a; CallList ?p ?n]) with (@nil string).
    change (looked_up [Log ?a]) with (@nil string).
    intros [[H | H] | H]; [destruct H | exact (Hp H) | destruct H].
  - specialize (IH (page + 1) (acc ++ page_candidates w page (data_list data)) b).
    destruct (discover w fuel (page + 1) _) as [rest d]. cbn [fst] in *.
    rewrite !looked_up_app, !in_app_iff.
    change (looked_up [Log ?a; CallList ?p ?n]) with (@nil string).
    change (looked_up (Log ?l :: rest)) with (looked_up rest).
    intros [[H | H] | H]; [destruct H | exact (Hp H) | exact (IH H)].
Qed.

Lemma after_discovery_looks_up_nothing (w : World) (mode : string)
  (input : list string) (prs : list Candidate) :
  looked_up (fst (after_discovery w mode input prs)) = [].
Proof.
  assert (HL : forall i, looked_up (delete_loop w i prs) = []).
  { induction prs as [|c prs IH]; intros i; [reflexivity|].
    cbn [delete_loop]. rewrite looked_up_app, IH.
    now destruct (deleteRef w i (branch_name c)). }
  assert (HR : looked_up (dry_run_report prs) = []).
  { unfold dry_run_report. change (looked_up (Log ?l :: ?r)) with (looked_up r).
    clear HL. induction prs as [|c prs IH]; [reflexivity | exact IH]. }
  destruct (after_discovery_cases w mode input prs)
    as [[_ ->] | [(_ & _ & ->) | [(_ & _ & ->) | (_ & _ & ->)]]]; cbn [fst];
    try reflexivity.
  - now rewrite !looked_up_app, HR.
  - change (?s ++ Question AskNuke :: ?l) with (s ++ [Question AskNuke] ++ l).
    now rewrite !looked_up_app, HL.
Qed.

(** X10.  master and staging are never handed to [repos.getBranch] nor to
    [git.deleteRef], in any run. *)
Theorem protected_branches_are_never_touched (w : World) (fuel : nat) (b : string) :
  In b FORBIDDEN_HEAD_REFS ->
  ~ In b (looked_up (fst (run w fuel))) /\ ~ In b (deleted_refs (fst (run w fuel))).
Proof.
  intros Hb.
  destruct (run_cases w fuel)
    as [[_ E] | [(_ & _ & E) | [(_ & typed & input & _ & _ & E)
       | [(_ & typed & _ & _ & E) | [(_ & answer & input & _ & _ & E)
       | (mode & input & Hs)]]]]]; try (rewrite E; split; intros []).
  rewrite (run_after_gates w fuel mode input Hs).
  pose proof (discover_looked_up w fuel 1 [] b) as HL.
  pose proof (discover_keeps w (passed_all_filters w) fuel (page_candidates_passed w)
                1 []) as HK.
  destruct (discover_no_side_effect w fuel 1 []) as [D _].
  destruct (discover w fuel 1 []) as [evs [prs | |]]; cbn [fst snd] in *.
  - specialize (HK prs (Forall_nil _) eq_refl).
    rewrite !looked_up_app, !deleted_refs_app, D. cbn [looked_up deleted_refs flat_map app].
    pose proof (after_discovery_looks_up_nothing w mode input prs) as HA.
    rewrite HA, app_nil_r. split; [intros H; now apply HL|].
    destruct (after_discovery_summary w mode input prs) as (_ & [-> | ->] & _);
      [intros []|].
    intros H. apply in_map_iff in H. destruct H as (c & <- & Hc).
    rewrite Forall_forall in HK. destruct (HK c Hc) as (_ & Hf & _). contradiction.
  - rewrite looked_up_app, deleted_refs_app, D.
    split; [intros H; exact (HL H Hb) | intros []].
  - rewrite looked_up_app, deleted_refs_app, D.
    split; [intros H; exact (HL H Hb) | intros []].
Qed.

Lemma protected_branches_are_never_touched_witness :
  let w := world base_env ["NUKE"; "YES I DO"; "NUKE"] in
  ~ In "staging" (looked_up (fst (run w 3))) /\
  ~ In "staging" (deleted_refs (fst (run w 3))).
Proof.
  intros w. apply (protected_branches_are_never_touched w 3 "staging").
  right. left. reflexivity.
Defined.

Section FetchFailure.

Variable w : World.

Lemma discover_fails (fuel : nat) :
  forall j n,
    (j < n <= j + fuel)%nat -> fails_at w j n ->
    snd (discover w fuel (Z.of_nat (S j)) (pages_upto w j)) = FetchFailed /\
    listed_pages (fst (discover w fuel (Z.of_nat (S j)) (pages_upto w j)))
    = map Z.of_nat (seq (S j) (n - j)).
Proof.
  induction fuel as [|fuel IH]; intros j n Hn [Hk Hthrow]; [lia|].
  rewrite discover_step. cbn zeta.
  destruct (Nat.eq_dec n (S j)) as [-> | Hne].
  - rewrite Hthrow. replace (S j - j)%nat with 1%nat by lia. now split.
  - destruct (Hk (S j) ltac:(lia)) as ((d & Hp & Hd) & Hcap).
    rewrite Hp, Hd. unfold cap_reached in Hcap.
    destruct (Z.leb_spec (MAX_COUNT (env w))
                (Z.of_nat (List.length (pages_upto w (S j))))); [contradiction|].
    cbn [fst snd].
    destruct (IH (S j) n ltac:(lia)) as [E1 E2].
    { split; [|exact Hthrow]. intros k Hjk. apply Hk. lia. }
    split; [exact E1|]. rewrite listed_pages_of_page.
    change (listed_pages (Log ?l :: ?r)) with (listed_pages r). rewrite E2.
    replace (n - j)%nat with (S (n - S j)) by lia. reflexivity.
Qed.

End FetchFailure.

(** X11.  Line 89 has no handler: when the call for page [n] is rejected
    (the pages before it having data and leaving the list under the cap),
    the run asked for pages 1 to [n] and ends there.  Nothing is written to
    the file, nothing is deleted, the last prompt is not shown and the
    prompt is not closed. *)
Theorem rejected_fetch_ends_the_run_unsaved (w : World) (fuel : nat)
  (mode : string) (input : list string) (n : nat) :
  starts_discovery w mode input ->
  (1 <= n <= fuel)%nat -> fails_at w 0 n ->
  snd (run w fuel) = Rejected /\
  listed_pages (fst (run w fuel)) = map Z.of_nat (seq 1 n) /\
  written (fst (run w fuel)) = [] /\
  deleted_refs (fst (run w fuel)) = [] /\
  questions (fst (run w fuel)) = [AskMode; AskRun mode] /\
  closes (fst (run w fuel)) = 0%nat.
Proof.
  intros Hs Hn Hf. rewrite (run_after_gates w fuel mode input Hs).
  destruct (discover_fails w fuel 0 n ltac:(lia) Hf) as [E1 E2].
  change (Z.of_nat 1) with 1 in *. change (pages_upto w 0) with (@nil Candidate) in *.
  rewrite Nat.sub_0_r in E2.
  destruct (discover_no_side_effect w fuel 1 []) as [D W].
  destruct (discover_asks_nothing w fuel 1 []) as [Q C].
  destruct (discover w fuel 1 []) as [evs d]. cbn [fst snd] in *. subst d.
  cbv beta iota zeta. cbn [fst snd].
  rewrite listed_pages_app, written_app, deleted_refs_app, questions_app, closes_app.
  rewrite E2, W, D, Q, C. now repeat split.
Qed.

Lemma rejected_fetch_ends_the_run_unsaved_witness :
  let w := broken_world ["NUKE"; "YES I DO"; "NUKE"] in
  snd (run w 5) = Rejected /\
  listed_pages (fst (run w 5)) = [1; 2] /\
  written (fst (run w 5)) = [] /\
  deleted_refs (fst (run w 5)) = [] /\
  questions (fst (run w 5)) = [AskMode; AskRun "NUKE"] /\
  closes (fst (run w 5)) = 0%nat.
Proof.
  intros w.
  apply (rejected_fetch_ends_the_run_unsaved w 5 "NUKE" ["NUKE"] 2).
  - split; [reflexivity|]. exists "NUKE", "YES I DO". now repeat split.
  - lia.
  - split; [|reflexivity]. intros k Hk. assert (k = 1%nat) as -> by lia.
    split; [exists (Some [pr1; pr3]); now split|].
    unfold cap_reached. vm_compute. intros H. now apply H.
Defined.

(** X12.  Lines 131 and 146: a pull request whose [merged_at] cannot be
    parsed has age NaN and is dropped, whatever the threshold (a negative
    one included) and whatever its other fields. *)
Theorem unparsable_merge_date_is_dropped (w : World) (page : Z)
  (pr : PullRequest) (s : string) (l1 l2 : list PullRequest) :
  pr_merged_at pr = Some s -> Date_parse w s = None ->
  monthsAge w page pr = NaN /\
  page_candidates w page (l1 ++ pr :: l2) = page_candidates w page (l1 ++ l2).
Proof.
  intros Hm Hp.
  assert (Ha : monthsAge w page pr = NaN).
  { unfold monthsAge, parse_merged_at. rewrite Hm, Hp. reflexivity. }
  split; [exact Ha|].
  rewrite !page_candidates_app, page_candidates_cons.
  assert (Hs : survives w page pr = false).
  { unfold survives, old_enough. cbn [to_candidate age].
    replace (fst (with_branch_info w page pr)) with pr
      by (unfold with_branch_info; now destruct (getBranch w page pr)).
    rewrite Ha. cbn [JSNumber.geb]. now rewrite andb_false_r. }
  now rewrite Hs.
Qed.

Lemma unparsable_merge_date_is_dropped_witness :
  let w := world base_env [] in
  let pr := pull 9 "feature-z" "master" (Some "yesterday") in
  monthsAge w 1 pr = NaN /\
  page_candidates w 1 ([pr1] ++ pr :: [pr2]) = page_candidates w 1 ([pr1] ++ [pr2]).
Proof.
  intros w pr.
  apply (unparsable_merge_date_is_dropped w 1 pr "yesterday" [pr1] [pr2]); reflexivity.
Defined.

(** X13.  Lines 97-146 as one pass: the candidates of a page are its pull
    requests that pass the five stages, each converted once, in the order of
    the page; so there are at most as many candidates as locally eligible
    pull requests, and at most as many as the page holds. *)
Theorem pipeline_is_one_filtering_pass (w : World) (page : Z) (data : list PullRequest) :
  page_candidates w page data
  = map (fun pr => to_candidate w page (with_branch_info w page pr))
        (filter (survives w page) data) /\
  (List.length (page_candidates w page data)
   <= List.length (filter locally_eligible data) <= List.length data)%nat.
Proof.
  split.
  - induction data as [|pr l IH]; [reflexivity|].
    rewrite page_candidates_cons, IH. cbn [filter].
    now destruct (survives w page pr).
  - split; [|apply filter_length_le].
    unfold page_candidates.
    eapply Nat.le_trans; [apply filter_length_le|]. rewrite length_map.
    eapply Nat.le_trans; [apply filter_length_le|]. now rewrite length_map.
Qed.

Section EndlessPaging.

Variable w : World.

Lemma discover_never_stops (fuel : nat) :
  (forall k, (1 <= k)%nat ->
     page_has_data w (Z.of_nat k) /\
     page_candidates w (Z.of_nat k) (page_data w (Z.of_nat k)) = []) ->
  0 < MAX_COUNT (env w) ->
  forall j,
    snd (discover w fuel (Z.of_nat (S j)) (pages_upto w j)) = StillPaging /\
    listed_pages (fst (discover w fuel (Z.of_nat (S j)) (pages_upto w j)))
    = map Z.of_nat (seq (S j) fuel).
Proof.
  intros Hall Hmax.
  assert (Hnil : forall j, pages_upto w j = []).
  { induction j as [|j IH]; [reflexivity|]. cbn [pages_upto].
    rewrite IH. apply (Hall (S j)). lia. }
  induction fuel as [|fuel IH]; intros j; [now split|].
  rewrite discover_step. cbn zeta.
  destruct (Hall (S j) ltac:(lia)) as ((d & Hp & Hd) & _). rewrite Hp, Hd.
  destruct (Z.leb_spec (MAX_COUNT (env w))
              (Z.of_nat (List.length (pages_upto w (S j))))) as [Hc | Hc];
    [rewrite (Hnil (S j)) in Hc; cbn in Hc; lia|].
  cbn [fst snd]. destruct (IH (S j)) as [E1 E2].
  split; [exact E1|]. rewrite listed_pages_of_page.
  change (listed_pages (Log ?l :: ?r)) with (listed_pages r). now rewrite E2.
Qed.

End EndlessPaging.

(** X14.  The cap counts candidates, not pages: with a positive MAX_COUNT,
    as long as every page holds data and yields no candidate, the loop goes
    on to the next page; after any number of pages it has neither returned
    nor failed. *)
Theorem cap_does_not_bound_the_pages (w : World) (fuel : nat) :
  (forall k, (1 <= k)%nat ->
     page_has_data w (Z.of_nat k) /\
     page_candidates w (Z.of_nat k) (page_data w (Z.of_nat k)) = []) ->
  0 < MAX_COUNT (env w) ->
  snd (discover w fuel 1 []) = StillPaging /\
  listed_pages (fst (discover w fuel 1 [])) = map Z.of_nat (seq 1 fuel).
Proof.
  intros Hall Hmax. exact (discover_never_stops w fuel Hall Hmax 0%nat).
Qed.

Lemma cap_does_not_bound_the_pages_witness :
  snd (discover endless_world 7 1 []) = StillPaging /\
  listed_pages (fst (discover endless_world 7 1 [])) = map Z.of_nat (seq 1 7).
Proof.
  apply (cap_does_not_bound_the_pages endless_world 7).
  - intros k _. split; [exists (Some [pr6]); now split | reflexivity].
  - reflexivity.
Defined.

(** X15.  Lines 148-153: with a positive MAX_COUNT the list returned by the
    loop goes over the cap by less than the last page fetched: its length is
    below MAX_COUNT plus the number of pull requests of that page. *)
Theorem list_exceeds_cap_by_less_than_a_page (w : World) (fuel : nat)
  (prs : list Candidate) :
  0 < MAX_COUNT (env w) ->
  snd (discover w fuel 1 []) = Found prs ->
  exists n,
    listed_pages (fst (discover w fuel 1 [])) = map Z.of_nat (seq 1 n) /\
    Z.of_nat (List.length prs)
    < MAX_COUNT (env w) + Z.of_nat (List.length (page_data w (Z.of_nat n))).
Proof.
  intros Hmax Hd.
  destruct (discover_found w fuel 0 prs Hd) as (n & Hn & Hl & Hk & Hstop).
  rewrite Nat.sub_0_r in Hl. exists n. split; [exact Hl|].
  assert (Hprev : Z.of_nat (List.length (pages_upto w (n - 1))) < MAX_COUNT (env w)).
  { destruct (Nat.eq_dec n 1) as [-> | Hne]; [exact Hmax|].
    destruct (Hk (n - 1)%nat ltac:(lia)) as [_ Hc]. unfold cap_reached in Hc. lia. }
  destruct Hstop as [[_ ->] | (_ & _ & ->)]; [lia|].
  replace n with (S (n - 1)) at 1 by lia. cbn [pages_upto].
  rewrite length_app. replace (S (n - 1)) with n by lia.
  assert (Hlen : (List.length (page_candidates w (Z.of_nat n) (page_data w (Z.of_nat n)))
                  <= List.length (page_data w (Z.of_nat n)))%nat).
  { unfold page_candidates.
    eapply Nat.le_trans; [apply filter_length_le|]. rewrite length_map.
    eapply Nat.le_trans; [apply filter_length_le|]. rewrite length_map.
    apply filter_length_le. }
  lia.
Qed.

Lemma list_exceeds_cap_by_less_than_a_page_witness :
  let w := world capped_env [] in
  exists n,
    listed_pages (fst (discover w 5 1 [])) = map Z.of_nat (seq 1 n) /\
    Z.of_nat (List.length (pages_upto w 1))
    < MAX_COUNT (env w) + Z.of_nat (List.length (page_data w (Z.of_nat n))).
Proof.
  intros w.
  apply (list_exceeds_cap_by_less_than_a_page w 5 (pages_upto w 1)); reflexivity.
Defined.

(** X16.  Lines 32 and 150: a negative MAX_COUNT is accepted as it is, and
    then the loop stops after the first page that has data, with whatever
    that page yields (nothing, possibly), without asking for page 2. *)
Theorem negative_cap_stops_after_one_page (w : World) (fuel : nat) :
  MAX_COUNT (env w) < 0 ->
  page_has_data w 1 ->
  snd (discover w (S fuel) 1 []) = Found (page_candidates w 1 (page_data w 1)) /\
  listed_pages (fst (discover w (S fuel) 1 [])) = [1].
Proof.
  intros Hmax (d & Hp & Hd).
  change (discover w (S fuel) 1 [])
    with (discover w (S fuel) (Z.of_nat 1) (pages_upto w 0)).
  rewrite discover_step. cbn zeta. change (Z.of_nat 1) with 1. rewrite Hp, Hd.
  destruct (Z.leb_spec (MAX_COUNT (env w))
              (Z.of_nat (List.length (pages_upto w 1)))); [|lia].
  cbn [fst snd]. split; [reflexivity|]. now rewrite listed_pages_of_page.
Qed.

Lemma negative_cap_stops_after_one_page_witness :
  let w := world negative_cap_env [] in
  MAX_COUNT (env w) = -1 /\
  snd (discover w 3 1 []) = Found (page_candidates w 1 (page_data w 1)) /\
  listed_pages (fst (discover w 3 1 [])) = [1].
Proof.
  intros w. split; [reflexivity|].
  apply (negative_cap_stops_after_one_page w 2); [reflexivity|].
  exists (Some [pr1; pr2; pr3; pr4; pr5; pr6; pr7]). now split.
Defined.

(** ** Rounding respects order *)

Section RoundingOrder.

Local Open Scope Q_scope.

Lemma ulp_exp_unique (x : Q) (e1 e2 : Z) :
  inject_Z (2 ^ 52) <= x / 2 ^ e1 -> x / 2 ^ e1 < inject_Z (2 ^ 53) ->
  inject_Z (2 ^ 52) <= x / 2 ^ e2 -> x / 2 ^ e2 < inject_Z (2 ^ 53) ->
  e1 = e2.
Proof.
  assert (H : forall a b, (a < b)%Z ->
            inject_Z (2 ^ 52) <= x / 2 ^ b -> x / 2 ^ a < inject_Z (2 ^ 53) -> False).
  { intros a b Hab Hb Ha.
    assert (E : x / 2 ^ a == x / 2 ^ b * 2 ^ (b - a)).
    { rewrite !Qdiv_pow2. replace (- a)%Z with (- b + (b - a))%Z by lia.
      rewrite pow2_add. ring. }
    assert (H2 : 2 ^ 1 <= 2 ^ (b - a)) by (apply pow2_le; lia).
    change (2 ^ 1) with 2 in H2. rewrite E in Ha.
    change (inject_Z (2 ^ 52)) with (4503599627370496 # 1) in Hb.
    change (inject_Z (2 ^ 53)) with (9007199254740992 # 1) in Ha.
    nra. }
  intros A1 A2 B1 B2. destruct (Z.lt_trichotomy e1 e2) as [Hlt | [Heq | Hgt]].
  - exfalso. exact (H e1 e2 Hlt B1 A2).
  - exact Heq.
  - exfalso. exact (H e2 e1 Hgt A1 B2).
Qed.

Lemma rne_proper (x y : Q) : x == y -> rne x = rne y.
Proof.
  intros E. unfold rne. rewrite (Qfloor_comp x y E).
  now rewrite (Qcompare_comp (x - inject_Z (Qfloor y)) (y - inject_Z (Qfloor y))
                 ltac:(now rewrite E) (1 # 2) (1 # 2) ltac:(reflexivity)).
Qed.

Lemma round_pos_proper (x y : Q) : 0 < x -> x == y -> round_pos x = round_pos y.
Proof.
  intros Hx E. assert (Hy : 0 < y) by now rewrite <- E.
  destruct (ulp_exp_spec x Hx) as [X1 X2]. destruct (ulp_exp_spec y Hy) as [Y1 Y2].
  assert (Ey : x / 2 ^ ulp_exp y == y / 2 ^ ulp_exp y)
    by (apply Qdiv_comp; [exact E | reflexivity]).
  rewrite <- Ey in Y1, Y2.
  pose proof (ulp_exp_unique x _ _ X1 X2 Y1 Y2) as Ee.
  unfold round_pos. rewrite <- Ee. apply Qred_complete.
  rewrite (rne_proper (x / 2 ^ ulp_exp x) (y / 2 ^ ulp_exp x)); [reflexivity|].
  apply Qdiv_comp; [exact E | reflexivity].
Qed.

(** The rounded value depends on the rational only, not on the fraction
    that writes it. *)
Lemma round_proper (x y : Q) : x == y -> round x = round y.
Proof.
  intros E.
  destruct (round_cases x) as [[Hx ->] | [[Hx ->] | [Hx ->]]];
    destruct (round_cases y) as [[Hy ->] | [[Hy ->] | [Hy ->]]];
    try (exfalso; lra).
  - reflexivity.
  - now apply round_pos_proper.
  - f_equal. f_equal. apply round_pos_proper; [lra | now rewrite E].
Qed.

Lemma round_mono (x y : Q) : x <= y -> round x <= round y.
Proof.
  intros Hxy. destruct (Qeq_dec x y) as [E | Hne].
  - rewrite (round_proper x y E). apply Qle_refl.
  - assert (Hlt : x < y) by (apply Qle_lteq in Hxy; tauto).
    destruct (Qlt_le_dec (round y) x) as [Hyx | Hxr].
    + destruct (Qlt_le_dec y (round x)) as [Hyr | Hry].
      * exfalso.
        pose proof (round_nearest x (round y) (round_representable y)) as N1.
        pose proof (round_nearest y (round x) (round_representable x)) as N2.
        revert N1 N2. do 4 (apply Qabs_case; intros ?); intros; lra.
      * apply round_ge; [apply round_representable | exact Hry].
    + apply round_le; [apply round_representable | exact Hxr].
Qed.

(** A rounded value is written in lowest terms. *)
Lemma round_canonical (x : Q) (k : Z) : round x == inject_Z k -> round x = inject_Z k.
Proof.
  intros E.
  assert (Hr : Qred (round x) = round x).
  { destruct (round_cases x) as [[_ ->] | [[_ ->] | [_ ->]]]; [reflexivity| |];
      unfold round_pos; apply Qred_complete, Qred_correct. }
  rewrite <- Hr, (Qred_complete _ _ E). unfold Qred, inject_Z.
  pose proof (Z.ggcd_gcd k 1) as Hg. pose proof (Z.ggcd_correct_divisors k 1) as Hd.
  destruct (Z.ggcd k 1) as [g [aa bb]]. cbn [fst snd] in *.
  rewrite Z.gcd_1_r in Hg. subst g. destruct Hd as [Ha Hb].
  rewrite Z.mul_1_l in Ha, Hb. now subst.
Qed.

(** The age grows with the clock and with the time since the merge. *)
Lemma age_of_mono (now1 now2 t1 t2 : Z) :
  (now1 <= now2)%Z -> (t2 <= t1)%Z -> age_of now1 t1 <= age_of now2 t2.
Proof.
  intros Hn Ht. unfold age_of.
  apply round_mono. apply Qmult_le_compat_r; [|discriminate].
  apply round_mono. apply Qmult_le_compat_r; [|discriminate].
  apply round_mono.
  assert (A : round (inject_Z now1) <= round (inject_Z now2))
    by (apply round_mono; now rewrite <- Zle_Qle).
  assert (B : round (inject_Z t2) <= round (inject_Z t1))
    by (apply round_mono; now rewrite <- Zle_Qle).
  lra.
Qed.

Lemma whole_months_upper (now t A : Z) :
  time_value now -> time_value t -> (Z.abs A < 2 ^ 21)%Z ->
  (now - t <= A * 2592000000)%Z ->
  age_of now t <= inject_Z A.
Proof.
  intros Hn Ht HA Hd. unfold age_of.
  change (2 ^ 21)%Z with 2097152%Z in HA.
  pose proof (elapsed_exact now t Hn Ht) as E.
  set (y0 := round (inject_Z now) - round (inject_Z t)) in *.
  assert (H0 : round y0 <= inject_Z (A * 2592000000)).
  { apply round_le.
    - apply representable_Z. change (2 ^ 53)%Z with 9007199254740992%Z. lia.
    - rewrite E. now rewrite <- Zle_Qle. }
  rewrite inject_Z_mult in H0.
  assert (H1 : round (round y0 / 1000) <= inject_Z (A * 2592000)).
  { apply round_le.
    - apply representable_Z. change (2 ^ 53)%Z with 9007199254740992%Z. lia.
    - rewrite inject_Z_mult. apply Qle_shift_div_r; [reflexivity|].
      change (inject_Z 2592000000) with (2592000000 # 1) in H0.
      change (inject_Z 2592000) with (2592000 # 1). lra. }
  rewrite inject_Z_mult in H1.
  apply round_le.
  - apply representable_Z. change (2 ^ 53)%Z with 9007199254740992%Z. lia.
  - apply Qle_shift_div_r; [reflexivity|].
    change (inject_Z 2592000) with (2592000 # 1) in H1. lra.
Qed.

End RoundingOrder.

(** X17.  Lines 131-146: the age filter respects the order of merges.  Of
    two pull requests with parsable merge dates, the one merged no later
    (its clock reading being no earlier) gets an age at least as large, so
    when the younger one passes [age >= AGE_IN_MONTHS] the older one passes
    too; binary64 rounding never reverses the order. *)
Theorem older_pull_request_passes_too (w : World) (page : Z)
  (young old : PullRequest) (bi1 bi2 : option BranchInfo)
  (s1 s2 : string) (t1 t2 : Z) :
  pr_merged_at young = Some s1 -> Date_parse w s1 = Some t1 ->
  pr_merged_at old = Some s2 -> Date_parse w s2 = Some t2 ->
  t2 <= t1 ->
  Date_now w page young <= Date_now w page old ->
  JSNumber.geb (monthsAge w page old) (monthsAge w page young) = true /\
  (old_enough w (to_candidate w page (young, bi1)) = true ->
   old_enough w (to_candidate w page (old, bi2)) = true).
Proof.
  intros M1 P1 M2 P2 Ht Hn.
  pose proof (age_of_mono _ _ _ _ Hn Ht) as Hle.
  unfold old_enough. cbn [to_candidate age fst].
  rewrite (monthsAge_value w page young s1 t1 M1 P1).
  rewrite (monthsAge_value w page old s2 t2 M2 P2).
  cbn [JSNumber.geb JSNumber.of_Z]. rewrite !Qle_bool_iff.
  split; [exact Hle|]. intros H. now apply Qle_trans with (age_of (Date_now w page young) t1).
Qed.

Lemma older_pull_request_passes_too_witness :
  let w := world base_env [] in
  JSNumber.geb (monthsAge w 1 pr1) (monthsAge w 1 pr2) = true /\
  (old_enough w (to_candidate w 1 (pr2, None)) = true ->
   old_enough w (to_candidate w 1 (pr1, None)) = true).
Proof.
  intros w.
  apply (older_pull_request_passes_too w 1 pr2 pr1 None None
           "2024-01-31T00:00:00Z" "2024-01-01T00:00:00Z" 1706659200000 1704067200000);
    try reflexivity; vm_compute; discriminate.
Defined.

(** X18.  Lines 131-133: when the merge lies a whole number [k] of 30-day
    months before the clock reading, the recorded age is exactly [k]: the
    two divisions lose nothing (time values in the ECMAScript range, [k]
    below 2^21 in magnitude). *)
Theorem whole_months_are_exact (w : World) (page : Z) (pr : PullRequest)
  (s : string) (t k : Z) :
  pr_merged_at pr = Some s -> Date_parse w s = Some t ->
  time_value (Date_now w page pr) -> time_value t ->
  Z.abs k < 2 ^ 21 ->
  Date_now w page pr - t = k * (1000 * MONTH_IN_SECONDS) ->
  monthsAge w page pr = Num (inject_Z k).
Proof.
  intros Hm Hp Hn Ht Hk Hd. change (1000 * MONTH_IN_SECONDS) with 2592000000 in Hd.
  rewrite (monthsAge_value w page pr s t Hm Hp). f_equal.
  unfold age_of. apply round_canonical. apply Qle_antisym.
  - apply (whole_months_upper _ _ _ Hn Ht Hk). lia.
  - apply (old_at_threshold _ _ _ Hn Ht Hk). lia.
Qed.

Lemma whole_months_are_exact_witness :
  monthsAge (world base_env []) 1 pr1 = Num (inject_Z 4).
Proof.
  apply (whole_months_are_exact (world base_env []) 1 pr1
           "2024-01-01T00:00:00Z" 1704067200000 4); try reflexivity.
  - vm_compute. discriminate.
  - vm_compute. discriminate.
Defined.

(** ** Reading a setting *)

Section Decimal.

Import DecimalString.NilEmpty.






End Decimal.



(** X20.  Lines 97-127: one [getBranch] call is issued for every locally
    eligible pull request of the page, on its head branch and in page
    order, none for the others; each call ends either in a "Branch not
    found" line or in a record handed to the age filter. *)
Theorem one_lookup_per_eligible_pull_request (w : World) (page : Z)
  (data : list PullRequest) :
  looked_up (page_events w page data) = map pr_head_ref (filter locally_eligible data) /\
  (not_found_logs (page_events w page data)
   + List.length (filter (fun pr => locally_eligible pr
                                    && branch_found (with_branch_info w page pr)) data)
   = List.length (looked_up (page_events w page data)))%nat.
Proof.
  split; [apply page_events_looked_up|].
  rewrite page_events_looked_up, length_map.
  induction data as [|pr l IH]; [reflexivity|].
  change (pr :: l) with ([pr] ++ l).
  rewrite page_events_app, !filter_app, !length_app, <- IH.
  unfold page_events, not_found_logs. cbn [filter app].
  destruct (locally_eligible pr); cbn [map filter app List.length andb]; [|lia].
  destruct (branch_found (with_branch_info w page pr));
    cbn [negb map filter app List.length]; lia.
Qed.

(** X21.  Lines 165-186, the other way round from the two confirmations:
    when NUKE, YES I DO and NUKE are typed and the page loop ends with the
    list [prs], the run writes [prs], calls [deleteRef] on every branch of
    [prs] in order, closes the prompt once and completes. *)
Theorem confirmed_nuke_deletes_the_whole_list (w : World) (fuel : nat)
  (input : list string) (prs : list Candidate) :
  allRequiredVarsPresent (env w) = true ->
  stdin w = "NUKE" :: "YES I DO" :: "NUKE" :: input ->
  snd (discover w fuel 1 []) = Found prs ->
  snd (run w fuel) = Completed /\
  written (fst (run w fuel)) = [prs] /\
  deleted_refs (fst (run w fuel)) = map branch_name prs /\
  questions (fst (run w fuel)) = [AskMode; AskRun "NUKE"; AskNuke] /\
  closes (fst (run w fuel)) = 1%nat.
Proof.
  intros Henv Hin Hd.
  assert (Hs : starts_discovery w "NUKE" ("NUKE" :: input)).
  { split; [assumption|]. exists "NUKE", "YES I DO". now repeat split. }
  rewrite (run_after_gates w fuel _ _ Hs).
  destruct (discover_no_side_effect w fuel 1 []) as [D W].
  destruct (discover_asks_nothing w fuel 1 []) as [Q C].
  destruct (discover w fuel 1 []) as [evs d]. cbn [fst snd] in *. subst d.
  destruct (delete_loop_asks_nothing w prs 0) as [LQ LC].
  pose proof (delete_loop_writes_nothing w prs 0) as LW.
  pose proof (delete_loop_refs w prs 0) as LD.
  unfold after_discovery. cbn [String.eqb Ascii.eqb Bool.eqb negb fst snd].
  split; [reflexivity|].
  change (?s ++ Question AskNuke :: ?l) with (s ++ [Question AskNuke] ++ l).
  rewrite !written_app, !deleted_refs_app, !questions_app, !closes_app.
  rewrite W, D, Q, C, LW, LD, LQ, LC. cbn. rewrite app_nil_r. now repeat split.
Qed.

Lemma confirmed_nuke_deletes_the_whole_list_witness :
  let w := world base_env ["NUKE"; "YES I DO"; "NUKE"] in
  snd (run w 3) = Completed /\
  written (fst (run w 3)) = [pages_upto w 2] /\
  deleted_refs (fst (run w 3)) = map branch_name (pages_upto w 2) /\
  questions (fst (run w 3)) = [AskMode; AskRun "NUKE"; AskNuke] /\
  closes (fst (run w 3)) = 1%nat.
Proof.
  intros w.
  apply (confirmed_nuke_deletes_the_whole_list w 3 [] (pages_upto w 2));
    [reflexivity | reflexivity | vm_compute; reflexivity].
Defined.

Lemma fetches_app (a b : list Event) : fetches (a ++ b) = fetches a ++ fetches b.
Proof. apply flat_map_app. Qed.

Lemma discover_fetches (w : World) (fuel : nat) :
  forall page acc,
    fetches (fst (discover w fuel page acc))
    = map (fun p => (p, PER_PAGE_COUNT (env w)))
          (listed_pages (fst (discover w fuel page acc))).
Proof.
  induction fuel as [|fuel IH]; intros page acc; [reflexivity|].
  cbn [discover]. destruct (pulls_list w page) as [|data]; [reflexivity|].
  destruct (no_data data); [reflexivity|].
  assert (Hp : fetches (page_events w page (data_list data)) = [] /\
               listed_pages (page_events w page (data_list data)) = []).
  { split; [|apply page_events_quiet].
    unfold page_events. rewrite fetches_app.
    assert (E : forall (A : Type) (g : A -> Event) (l : list A),
               (forall x, fetches [g x] = []) -> fetches (map g l) = []).
    { intros A g l Hg. induction l as [|x l IHl]; [reflexivity|].
      change (map g (x :: l)) with ([g x] ++ map g l).
      now rewrite fetches_app, Hg, IHl. }
    now rewrite !E. }
  destruct Hp as [F L].
  destruct (_ <=? _).
  - cbn [fst]. rewrite !fetches_app, !listed_pages_app, F, L. reflexivity.
  - specialize (IH (page + 1) (acc ++ page_candidates w page (data_list data))).
    destruct (discover w fuel (page + 1) _) as [rest d]. cbn [fst] in *.
    rewrite !fetches_app, !listed_pages_app, F, L.
    change (fetches (Log ?l :: rest)) with (fetches rest).
    change (listed_pages (Log ?l :: rest)) with (listed_pages rest).
    rewrite IH. reflexivity.
Qed.

Lemma after_discovery_fetches_nothing (w : World) (mode : string)
  (input : list string) (prs : list Candidate) :
  fetches (fst (after_discovery w mode input prs)) = [] /\
  listed_pages (fst (after_discovery w mode input prs)) = [].
Proof.
  assert (HL : forall i, fetches (delete_loop w i prs) = [] /\
                         listed_pages (delete_loop w i prs) = []).
  { induction prs as [|c prs IH]; intros i; [now split|].
    destruct (IH (S i)) as [A B]. cbn [delete_loop].
    rewrite fetches_app, listed_pages_app, A, B.
    now destruct (deleteRef w i (branch_name c)). }
  assert (HR : fetches (dry_run_report prs) = [] /\
               listed_pages (dry_run_report prs) = []).
  { split; [|apply dry_run_report_quiet].
    unfold dry_run_report. change (fetches (Log ?l :: ?r)) with (fetches r).
    clear HL. induction prs as [|c prs IH]; [reflexivity | exact IH]. }
  destruct HR as [R1 R2]. destruct (HL 0%nat) as [L1 L2].
  destruct (after_discovery_cases w mode input prs)
    as [[_ ->] | [(_ & _ & ->) | [(_ & _ & ->) | (_ & _ & ->)]]]; cbn [fst];
    try (now split).
  - now rewrite !fetches_app, !listed_pages_app, R1, R2.
  - change (?s ++ Question AskNuke :: ?l) with (s ++ [Question AskNuke] ++ l).
    now rewrite !fetches_app, !listed_pages_app, L1, L2.
Qed.

(** X22.  Lines 35 and 75-82: only [config.page] changes between calls.
    Every [pulls.list] call of a run asks for PER_PAGE_COUNT pull requests
    per page, the configured value, which is never 0. *)
Theorem every_fetch_asks_for_the_configured_page_size (w : World) (fuel : nat) :
  fetches (fst (run w fuel))
  = map (fun p => (p, PER_PAGE_COUNT (env w))) (listed_pages (fst (run w fuel))) /\
  PER_PAGE_COUNT (env w) <> 0.
Proof.
  split; [|unfold PER_PAGE_COUNT, env_int; now apply or_default_nonzero].
  destruct (run_cases w fuel)
    as [[_ E] | [(_ & _ & E) | [(_ & typed & input & _ & _ & E)
       | [(_ & typed & _ & _ & E) | [(_ & answer & input & _ & _ & E)
       | (mode & input & Hs)]]]]]; try (rewrite E; reflexivity).
  rewrite (run_after_gates w fuel mode input Hs).
  pose proof (discover_fetches w fuel 1 []) as HD.
  destruct (discover w fuel 1 []) as [evs [prs | |]]; cbn [fst] in *.
  - destruct (after_discovery_fetches_nothing w mode input prs) as [A B].
    rewrite !fetches_app, !listed_pages_app, HD, A, B. cbn. now rewrite !app_nil_r.
  - now rewrite fetches_app, listed_pages_app, HD.
  - now rewrite fetches_app, listed_pages_app, HD.
Qed.
